(** * diff_cover.report_generator: diff-restricted coverage statistics and hunks

    A shallow embedding of [diff_cover/report_generator.py] (Python 2):
    the per-file record [DiffViolations], the summary queries of
    [BaseReportGenerator] and the three passes of [Hunker]
    ([hunkify], [code_and_context], [classify]).

    Python values are modelled as follows.
    - [int] is [Z]; [len] of a collection is a [nat] injected into [Z].
    - [set] of ints is [gset Z]; the dictionary of [_diff_violations] is a
      [gmap string _]; lists are lists.
    - [float] is IEEE-754 binary64, taken from the Standard Library's
      executable specification [spec_float] (precision 53, emax 1024),
      so that rounding is part of the model.
    - exceptions are the [Raise] results of the [result] type.
    - the file system is a map from paths to the lines of the files.

    The collaborators ([BaseViolationReporter], [BaseDiffReporter]) are
    records of functions.  Of [TemplateReportGenerator] the development
    has [_src_path_stats] and [_context], which compute what the templates
    are given; rendering (jinja2, pygments and the template files) is not
    part of it. *)

From Stdlib Require Import ZArith Lia QArith Qround.
From Stdlib Require Import Floats.SpecFloat.
From stdpp Require Import base option list sorting gmap strings pretty.

Local Open Scope Z_scope.

(** ** Results of Python computations *)

(** The exceptions of the module, by class: what an exception carries, such
    as the file name in an [IOError], is not part of the model. *)
Inductive exn : Type :=
  | ZeroDivisionError
  | IndexError
  | IOError
  | OverflowError
  | ValueError.

Inductive result (A : Type) : Type :=
  | Return (a : A)
  | Raise (e : exn).
Arguments Return {A} a.
Arguments Raise {A} e.

(** The error monad, with stdpp's [x ← c; k] notation. *)
#[global] Instance result_ret : MRet result := λ A, Return.
#[global] Instance result_bind : MBind result := λ A B k c,
  match c with
  | Return a => k a
  | Raise e => Raise e
  end.

(** [for x in xs: ys.append(f(x))] where [f] may raise. *)
Fixpoint for_each {A B} (f : A → result B) (xs : list A) : result (list B) :=
  match xs with
  | [] => mret []
  | x :: xs' => y ← f x; ys ← for_each f xs'; mret (y :: ys)
  end.

(** [{k: f(k) for k in ks}] and the loop [d = {}; for k in ks: d[k] = f(k)],
    where [f] may raise: a later binding of a key replaces an earlier one,
    and nothing is evaluated after the first exception. *)
Definition dict_for {V} (f : string → result V) (ks : list string)
    : result (gmap string V) :=
  foldl (λ acc k, d ← acc; v ← f k; mret (<[k := v]> d)) (mret ∅) ks.

(** ** Python built-ins used by the module *)

Module Py.

(** [range(a, b)] of Python 2: the list [a, a+1, ..., b-1]. *)
Definition range (a b : Z) : list Z := seqZ a (b - a).

(** [l[0]] and [l[-1]]. *)
Definition first {A} (l : list A) : result A :=
  match l with
  | [] => Raise IndexError
  | x :: _ => Return x
  end.

Definition final {A} (l : list A) : result A :=
  match last l with
  | None => Raise IndexError
  | Some x => Return x
  end.

(** [l[i]] for an index [i] produced by [range(len(l))]. *)
Definition index {A} (l : list A) (i : nat) : result A :=
  match l !! i with
  | None => Raise IndexError
  | Some x => Return x
  end.

(** A slice bound [i] of a sequence of length [len]: a negative bound
    counts from the end, and every bound is clipped to [0..len]. *)
Definition slice_bound (len i : Z) : Z :=
  if decide (i < 0) then Z.max 0 (i + len) else Z.min i len.

(** [l[start:stop]]; [start = None] is the omitted bound of [l[:stop]]. *)
Definition slice {A} (l : list A) (start : option Z) (stop : Z) : list A :=
  let len := Z.of_nat (length l) in
  let lo := from_option (slice_bound len) 0 start in
  let hi := slice_bound len stop in
  take (Z.to_nat (hi - lo)) (drop (Z.to_nat lo) l).

(** [x in l] for a list [l]. *)
Definition contains (x : Z) (l : list Z) : bool := bool_decide (x ∈ l).

(** [sorted(s)] for a set of ints. *)
Definition sorted (s : gset Z) : list Z := merge_sort Z.le (elements s).

(** [len(s)]. *)
Definition len_set (s : gset Z) : Z := Z.of_nat (size s).

(** [str(n)] for an int: its decimal digits, after a minus sign when [n] is
    negative. *)
Definition str (n : Z) : string := pretty n.

End Py.

(** ** The diff reporter (external collaborator)

    Modelled from the spec: [BaseDiffReporter] is not part of this module;
    section 6 of the specification gives its capabilities: a display name,
    the paths touched by the diff and, per path, the changed line numbers. *)

Module DiffReporter.
Record t : Type := {
  name : string;
  src_paths_changed : list string;
  lines_changed : string → list Z
}.
End DiffReporter.

(** ** Hunker *)

Module Hunker.

Record t : Type := {
  src_path : string;
  line_numbers : list Z;
  diff_reporter : DiffReporter.t;
  lines_of_context : Z
}.

(** [Hunker.__init__]. *)
Definition init (src_path : string) (missing_lines : list Z)
    (diff_reporter : DiffReporter.t) : t :=
  {| src_path := src_path;
     line_numbers := missing_lines;
     diff_reporter := diff_reporter;
     lines_of_context := 2 |}.

(** The loop of [hunkify], at the pair [(prev, b)] = [(l[i], l[i+1])], with
    the two lists [hunks] and [current_hunk] it mutates.  When the pairs
    are exhausted the function returns [hunks]; [current_hunk] is not
    appended. *)
Fixpoint hunkify_loop (c : Z) (prev : Z) (rest : list Z)
    (hunks : list (list Z)) (current_hunk : list Z) : list (list Z) :=
  match rest with
  | [] => hunks
  | b :: rest' =>
      if decide (b - prev < 2 * c + 2)
      then hunkify_loop c b rest' hunks (current_hunk ++ [b])
      else hunkify_loop c b rest' (hunks ++ [current_hunk]) [b]
  end.

Definition hunkify (self : t) : list (list Z) :=
  match line_numbers self with
  | [] => []
  | a :: rest => hunkify_loop (lines_of_context self) a rest [] [a]
  end.

(** The list [current_hunk] of the same loop at the time [hunkify]
    returns, for a non-empty [line_numbers]. *)
Fixpoint pending_loop (c : Z) (prev : Z) (rest : list Z)
    (current_hunk : list Z) : list Z :=
  match rest with
  | [] => current_hunk
  | b :: rest' =>
      if decide (b - prev < 2 * c + 2)
      then pending_loop c b rest' (current_hunk ++ [b])
      else pending_loop c b rest' [b]
  end.

Definition pending_hunk (self : t) : list Z :=
  match line_numbers self with
  | [] => []
  | a :: rest => pending_loop (lines_of_context self) a rest [a]
  end.

(** [f = open(self.src_path); content = f.readlines()] over a file system
    that maps a path to the lines of the file. *)
Definition readlines (fs : gmap string (list string)) (path : string)
    : result (list string) :=
  match fs !! path with
  | None => Raise IOError
  | Some content => Return content
  end.

(** The body of the loop of [code_and_context] for one hunk. *)
Definition pad_hunk (self : t) (content : list string) (hunk : list Z)
    : result (list (Z * string)) :=
  hunk_0 ← Py.first hunk;
  hunk_last ← Py.final hunk;
  let c := lines_of_context self in
  if decide (hunk_0 - c < 0)
  then mret (zip (Py.range 0 (hunk_last + c + 1))
                 (Py.slice content None (hunk_last + c)))
  else mret (zip (Py.range (hunk_0 - c) (hunk_last + c + 1))
                 (Py.slice content (Some (hunk_0 - c - 1)) (hunk_last + c))).

Definition code_and_context (fs : gmap string (list string)) (self : t)
    : result (list (list (Z * string))) :=
  content ← readlines fs (src_path self);
  for_each (pad_hunk self content) (hunkify self).

(** The named tuple [Line]. *)
Record line : Type := Line {
  line_num : Z;
  line_code : string;
  line_type : string
}.

(** The three branches of the inner loop of [classify]. *)
Definition classify_line (self : t) (p : Z * string) : line :=
  if Py.contains p.1 (line_numbers self)
  then Line p.1 p.2 "VIOLATION"
  else if Py.contains p.1
            (DiffReporter.lines_changed (diff_reporter self) (src_path self))
  then Line p.1 p.2 "NEWCONTEXT"
  else Line p.1 p.2 "OLDCONTEXT".

(** [for i in range(len(hunk)): current_hunk.append(... hunk[i] ...)]. *)
Definition classify_hunk (self : t) (hunk : list (Z * string))
    : result (list line) :=
  foldl (λ acc i,
           current_hunk ← acc;
           p ← Py.index hunk i;
           mret (current_hunk ++ [classify_line self p]))
        (mret []) (seq 0 (length hunk)).

Definition classify (fs : gmap string (list string)) (self : t)
    : result (list (list line)) :=
  hunks ← code_and_context fs self;
  for_each (classify_hunk self) hunks.

End Hunker.

(** ** Python floats: IEEE-754 binary64 *)

Module PyFloat.

Definition prec : Z := 53.
Definition emax : Z := 1024.

Definition t : Type := spec_float.

(** [float(n)] for an int [n], also the conversion of the int operand
    where an int meets a float: the nearest double, ties to even.  The
    ints converted in this module are [len]s and a difference of two sums
    of [len]s, which are below [2^63] in absolute value; Python's
    [OverflowError] needs [2^1024] and is not modelled. *)
Definition of_int (n : Z) : t := binary_normalize prec emax n 0 false.

(** The constant [100] as a float. *)
Definition hundred : t := Eval vm_compute in of_int 100.

Definition is_zero (x : t) : bool :=
  match x with
  | S754_zero _ => true
  | _ => false
  end.

(** [x / y]: division by a zero of either sign raises. *)
Definition truediv (x y : t) : result t :=
  if is_zero y then Raise ZeroDivisionError else Return (SFdiv prec emax x y).

Definition mul (x y : t) : t := SFmul prec emax x y.
Definition sub (x y : t) : t := SFsub prec emax x y.

(** [int(x)]: truncation toward zero. *)
Definition to_int (x : t) : result Z :=
  match x with
  | S754_zero _ => Return 0
  | S754_infinity _ => Raise OverflowError
  | S754_nan => Raise ValueError
  | S754_finite s m e => Return (cond_Zopp s (Z.shiftl (Z.pos m) e))
  end.

End PyFloat.

(** ** The violation reporter (external collaborator)

    Modelled from the spec: [BaseViolationReporter] and its violation
    records are not part of this module; section 6 of the specification
    gives a violation a [line] integer and the reporter a display name, the
    violations of a path and its measured lines, [None] standing for "all
    changed lines are measured". *)

Module Violation.
Record t : Type := { line : Z }.
End Violation.

Module ViolationReporter.
Record t : Type := {
  name : string;
  violations : string → list Violation.t;
  measured_lines : string → option (list Z)
}.
End ViolationReporter.

(** ** DiffViolations *)

Module DiffViolations.

Record t : Type := {
  violations : list Violation.t;
  lines : gset Z;
  measured_lines : gset Z
}.

(** [DiffViolations.__init__]. *)
Definition init (violations : list Violation.t)
    (measured_lines : option (list Z)) (diff_lines : list Z) : t :=
  {| violations := violations;
     lines := list_to_set (Violation.line <$> violations) ∩ list_to_set diff_lines;
     measured_lines :=
       match measured_lines with
       | None => list_to_set diff_lines
       | Some measured => list_to_set measured ∩ list_to_set diff_lines
       end |}.

End DiffViolations.

(** ** BaseReportGenerator *)

Module BaseReportGenerator.

Record t : Type := {
  _violations : ViolationReporter.t;
  _diff : DiffReporter.t
}.

(** The dictionary comprehension of [_diff_violations]. The property is
    lazy and cached; the collaborators are functions here, so the cached
    value is the value of this definition. *)
Definition _diff_violations (self : t) : gmap string DiffViolations.t :=
  foldl (λ d src_path,
           <[src_path :=
               DiffViolations.init
                 (ViolationReporter.violations (_violations self) src_path)
                 (ViolationReporter.measured_lines (_violations self) src_path)
                 (DiffReporter.lines_changed (_diff self) src_path)]> d)
        ∅ (DiffReporter.src_paths_changed (_diff self)).

Definition src_paths (self : t) : gset string :=
  dom (filter (λ item, 0 < Py.len_set (DiffViolations.measured_lines item.2))
              (_diff_violations self)).

(** [None] is Python's [None]; the [float(...)] around the returned value
    is the identity on a float. *)
Definition percent_covered (self : t) (src_path : string)
    : result (option PyFloat.t) :=
  match _diff_violations self !! src_path with
  | None => mret None
  | Some diff_violations =>
      let uncovered := DiffViolations.lines diff_violations in
      quot ← PyFloat.truediv
               (PyFloat.of_int (Py.len_set uncovered))
               (PyFloat.of_int (Py.len_set (DiffViolations.measured_lines diff_violations)));
      let percent_covered :=
        PyFloat.sub PyFloat.hundred (PyFloat.mul quot PyFloat.hundred) in
      mret (Some percent_covered)
  end.

Definition missing_lines (self : t) (src_path : string) : list Z :=
  match _diff_violations self !! src_path with
  | None => []
  | Some diff_violations => Py.sorted (DiffViolations.lines diff_violations)
  end.

(** [sum(...)] over the values of the dictionary. *)
Definition total_num_lines (self : t) : Z :=
  map_fold (λ _ summary acc, acc + Py.len_set (DiffViolations.measured_lines summary))
           0 (_diff_violations self).

Definition total_num_missing (self : t) : Z :=
  map_fold (λ _ summary acc, acc + Py.len_set (DiffViolations.lines summary))
           0 (_diff_violations self).

Definition total_percent_covered (self : t) : result Z :=
  let total_lines := total_num_lines self in
  if decide (total_lines > 0) then
    let num_covered := total_lines - total_num_missing self in
    quot ← PyFloat.truediv (PyFloat.of_int num_covered) (PyFloat.of_int total_lines);
    PyFloat.to_int (PyFloat.mul quot PyFloat.hundred)
  else mret 100.

Definition coverage_report_name (self : t) : string :=
  ViolationReporter.name (_violations self).

Definition diff_report_name (self : t) : string :=
  DiffReporter.name (_diff self).

End BaseReportGenerator.

(** ** TemplateReportGenerator: what the templates are given *)

Module TemplateReportGenerator.

(** The dictionary that [_src_path_stats] returns, a field per key. *)
Record src_path_stats : Type := SrcPathStats {
  percent_covered : option PyFloat.t;
  missing_lines : list string;
  num_missing : Z
}.

Definition _src_path_stats (self : BaseReportGenerator.t) (src_path : string)
    : result src_path_stats :=
  let missing_lines := Py.str <$> BaseReportGenerator.missing_lines self src_path in
  percent_covered ← BaseReportGenerator.percent_covered self src_path;
  mret {| percent_covered := percent_covered;
          missing_lines := missing_lines;
          num_missing := Z.of_nat (length missing_lines) |}.

(** The dictionary that [_context] returns, a field per key. *)
Record context : Type := Context {
  report_name : string;
  diff_name : string;
  src_stats : gmap string src_path_stats;
  augmented_stats : gmap string (list (list Hunker.line));
  total_num_lines : Z;
  total_num_missing : Z;
  total_percent_covered : Z
}.

(** The body of [_context], with the order [paths] in which the two loops
    iterate over the set [self.src_paths()]. *)
Definition _context_in (paths : list string) (fs : gmap string (list string))
    (self : BaseReportGenerator.t) : result context :=
  src_stats ← dict_for (_src_path_stats self) paths;
  augmented_stats ←
    dict_for (λ src,
                let hunker :=
                  Hunker.init src (BaseReportGenerator.missing_lines self src)
                    (BaseReportGenerator._diff self) in
                Hunker.classify fs hunker)
             paths;
  let report_name := BaseReportGenerator.coverage_report_name self in
  let diff_name := BaseReportGenerator.diff_report_name self in
  let total_num_lines := BaseReportGenerator.total_num_lines self in
  let total_num_missing := BaseReportGenerator.total_num_missing self in
  total_percent_covered ← BaseReportGenerator.total_percent_covered self;
  mret {| report_name := report_name;
          diff_name := diff_name;
          src_stats := src_stats;
          augmented_stats := augmented_stats;
          total_num_lines := total_num_lines;
          total_num_missing := total_num_missing;
          total_percent_covered := total_percent_covered |}.

(** [_context]; the order of iteration over a Python set is that of its
    hash table, here that of [elements]. *)
Definition _context (fs : gmap string (list string)) (self : BaseReportGenerator.t)
    : result context :=
  _context_in (elements (BaseReportGenerator.src_paths self)) fs self.

End TemplateReportGenerator.


(** ** The rules of the specification, in its words

    These definitions follow sections 4.2 and 4.3 of the specification and
    are compared below with the functions of the module. *)

Module Spec.

(** Section 4.2, step 3: scan the consecutive pairs [(prev, b)]; [b] joins
    the current hunk when [b - prev < 2R + 2], otherwise the current hunk
    is closed and a new hunk starts with [b].  Step 4: after the scan the
    result holds every hunk. *)
Fixpoint scan (R : Z) (prev : Z) (rest : list Z) (current : list Z)
    : list (list Z) :=
  match rest with
  | [] => [current]
  | b :: rest' =>
      if decide (b - prev < 2 * R + 2)
      then scan R b rest' (current ++ [b])
      else current :: scan R b rest' [b]
  end.

(** Steps 1 and 2: no hunk for the empty list; otherwise the first hunk is
    seeded with the first line. *)
Definition hunks (R : Z) (missing : list Z) : list (list Z) :=
  match missing with
  | [] => []
  | a :: rest => scan R a rest [a]
  end.

(** Section 4.3: the classification of line [n]. *)
Definition classification (violation_lines changed_lines : list Z) (n : Z)
    : string :=
  if decide (n ∈ violation_lines) then "VIOLATION"
  else if decide (n ∈ changed_lines) then "NEWCONTEXT"
  else "OLDCONTEXT".

(** Section 4.1: [floor(100 - total_num_missing / total_num_lines * 100)],
    over the rationals. *)
Definition total_percent (total_num_missing total_num_lines : Z) : Z :=
  Qfloor (100 - inject_Z total_num_missing / inject_Z total_num_lines * 100)%Q.

End Spec.

(** ** Reporters for the examples *)

Module Examples.

(** A violation reporter and a diff reporter that answer every path alike:
    violations on [violation_lines], the measured lines [measured] and the
    changed lines [changed]; the diff touches [paths]. *)
Definition generator (paths : list string) (violation_lines : list Z)
    (measured : option (list Z)) (changed : list Z) : BaseReportGenerator.t :=
  {| BaseReportGenerator._violations :=
       {| ViolationReporter.name := "coverage.xml";
          ViolationReporter.violations :=
            λ _, (λ n, {| Violation.line := n |}) <$> violation_lines;
          ViolationReporter.measured_lines := λ _, measured |};
     BaseReportGenerator._diff :=
       {| DiffReporter.name := "master...HEAD";
          DiffReporter.src_paths_changed := paths;
          DiffReporter.lines_changed := λ _, changed |} |}.

End Examples.

(** ** Auxiliary notions used in the proofs *)

(** The entry that [_diff_violations] builds for [src_path]. *)
Definition entry (self : BaseReportGenerator.t) (src_path : string) : DiffViolations.t :=
  DiffViolations.init
    (ViolationReporter.violations (BaseReportGenerator._violations self) src_path)
    (ViolationReporter.measured_lines (BaseReportGenerator._violations self) src_path)
    (DiffReporter.lines_changed (BaseReportGenerator._diff self) src_path).

(** The bits shifted out of [m0] by [k] shifts of a record that had lost
    nothing: [shr_r] is the last bit shifted out and [shr_s] tells whether a
    lower bit was set. *)
Definition shifted_out (m0 : Z) (k : Z) (mrs : shr_record) : Prop :=
  shr_m mrs = m0 `div` 2 ^ k
  ∧ shr_r mrs = bool_decide (2 ^ (k - 1) ≤ m0 `mod` 2 ^ k)
  ∧ shr_s mrs = bool_decide (m0 `mod` 2 ^ (k - 1) ≠ 0).

(** The mantissa that rounding to nearest even keeps of [n] when [k] bits
    are shifted out. *)
Definition round_shift (n k : Z) : Z :=
  let mrs := fst (shr (shr_record_of_loc n loc_Exact) 0 k) in
  round_nearest_even (shr_m mrs) (loc_of_shr_record mrs).

(** The 53-bit mantissa of [float(n)], before a carry into bit 53 moves
    the exponent. *)
Definition mantissa53 (n : Z) : Z :=
  let d := Zdigits2 n in
  if decide (d ≤ 53) then n * 2 ^ (53 - d) else round_shift n (d - 53).

(** [at_most x mb eb]: the float [x] is [+0] or a positive finite float whose
    exponent and mantissa are, in this order of significance, at most those
    of the normal float [mb * 2^eb]. *)
Definition at_most (x : spec_float) (mb eb : Z) : Prop :=
  match x with
  | S754_zero false => True
  | S754_finite false m e =>
      Z.pos m < 2 ^ 53 ∧ (e < eb ∨ (e = eb ∧ Z.pos m ≤ mb))
  | _ => False
  end.

(** The consecutive pairs of [l] that are [g] or more apart. *)
Definition far_pairs (g : Z) (l : list Z) : list (Z * Z) :=
  filter (λ p, g ≤ p.2 - p.1) (zip l (tail l)).

(** Consecutive lines of [l] are less than [g] apart. *)
Definition close_run (g : Z) (l : list Z) : Prop :=
  ∀ i x y, l !! i = Some x → l !! S i = Some y → y - x < g.

(** Every run starts [g] or more after the last line of the run before. *)
Definition separated (g : Z) (runs : list (list Z)) : Prop :=
  ∀ k r1 r2, runs !! k = Some r1 → runs !! S k = Some r2 →
    ∃ x y, last r1 = Some x ∧ head r2 = Some y ∧ g ≤ y - x.

(** [ascending_runs g lo runs]: every run is non-empty and lies between
    [lo] and its last line, and the next run lies [g] or more after that
    last line. *)
Fixpoint ascending_runs (g lo : Z) (runs : list (list Z)) : Prop :=
  match runs with
  | [] => True
  | run :: runs' =>
      ∃ final, last run = Some final
               ∧ Forall (λ x, lo ≤ x ≤ final) run
               ∧ ascending_runs g (final + g) runs'
  end.

(** The sum of a list of integers. *)
Definition sum_Z (l : list Z) : Z := foldr Z.add 0 l.

(** The [Hunker] that [_context] builds for the path [src]. *)
Definition hunker_for (self : BaseReportGenerator.t) (src : string) : Hunker.t :=
  Hunker.init src (BaseReportGenerator.missing_lines self src)
    (BaseReportGenerator._diff self).

(** * Properties *)

Ltac by_computation :=
  vm_compute; first [reflexivity | exact I | let H := fresh in intros H; discriminate H].
Ltac decide_by_computation := apply (bool_decide_unpack _); by_computation.

(** ** The error monad *)

Section for_each.
Context {A B : Type}.
Implicit Types (f : A → result B) (xs : list A) (ys : list B).

Lemma for_each_pure f (g : A → B) xs :
  Forall (λ x, f x = Return (g x)) xs → for_each f xs = Return (g <$> xs).
Proof.
  induction 1 as [|x xs Hx _ IH]; simpl; [done|].
  by rewrite Hx, IH.
Qed.

Lemma for_each_Return f xs ys :
  for_each f xs = Return ys → Forall2 (λ x y, f x = Return y) xs ys.
Proof.
  revert ys. induction xs as [|x xs IH]; intros ys; simpl.
  - intros [= <-]. constructor.
  - destruct (f x) as [y|e] eqn:Hx; simpl; [|done].
    destruct (for_each f xs) as [ys'|e] eqn:Hxs; simpl; [|done].
    intros [= <-]. constructor; auto.
Qed.

Lemma for_each_is_Return f xs :
  Forall (λ x, ∃ y, f x = Return y) xs → ∃ ys, for_each f xs = Return ys.
Proof.
  induction 1 as [|x xs [y Hy] _ [ys IH]]; simpl; [by eexists|].
  rewrite Hy, IH. by eexists.
Qed.
End for_each.

(** ** hunkify *)

Section hunkify.
Variable c : Z.

Lemma hunkify_loop_scan rest : ∀ prev hunks cur,
  hunks ++ Spec.scan c prev rest cur
  = Hunker.hunkify_loop c prev rest hunks cur ++ [Hunker.pending_loop c prev rest cur].
Proof.
  induction rest as [|b rest IH]; intros prev hunks cur; simpl; [done|].
  case_decide; rewrite <- IH; [done|].
  by rewrite <- app_assoc.
Qed.

Lemma concat_scan rest : ∀ prev cur,
  concat (Spec.scan c prev rest cur) = cur ++ rest.
Proof.
  induction rest as [|b rest IH]; intros prev cur; simpl.
  - by rewrite app_nil_r.
  - case_decide; simpl; rewrite IH; [by rewrite <- app_assoc|done].
Qed.

Lemma pending_loop_nonempty rest : ∀ prev cur,
  cur ≠ [] → Hunker.pending_loop c prev rest cur ≠ [].
Proof.
  induction rest as [|b rest IH]; intros prev cur Hcur; simpl; [done|].
  case_decide; apply IH; [|done].
  by destruct cur.
Qed.

Lemma hunkify_loop_nonempty rest : ∀ prev hunks cur,
  Forall (λ hunk, hunk ≠ []) hunks → cur ≠ [] →
  Forall (λ hunk, hunk ≠ []) (Hunker.hunkify_loop c prev rest hunks cur).
Proof.
  induction rest as [|b rest IH]; intros prev hunks cur Hh Hcur; simpl; [done|].
  case_decide; apply IH; try done.
  - by destruct cur.
  - apply Forall_app; split; [done|]. by constructor.
Qed.
End hunkify.

Lemma hunkify_nonempty self : Forall (λ hunk, hunk ≠ []) (Hunker.hunkify self).
Proof.
  unfold Hunker.hunkify. destruct (Hunker.line_numbers self); [constructor|].
  by apply hunkify_loop_nonempty.
Qed.

(** C1 (the code departs from the claim).  For a non-empty list of missing
    lines, the scan rule of the specification yields the hunks that
    [hunkify] returns followed by one more hunk: the hunk still being built
    when the loop ends is non-empty and is never appended.  So the input
    lines are those of the returned hunks and of that lost hunk, in order;
    [10, 15] yields no hunk instead of one, and [10, 16] yields the single
    hunk [10] instead of two. *)
Theorem hunkify_drops_final_hunk :
  (∀ src diff a rest,
     let self := Hunker.init src (a :: rest) diff in
     Spec.hunks 2 (a :: rest) = Hunker.hunkify self ++ [Hunker.pending_hunk self]
     ∧ Hunker.pending_hunk self ≠ []
     ∧ concat (Hunker.hunkify self) ++ Hunker.pending_hunk self = a :: rest)
  ∧ (∀ src diff,
       Hunker.hunkify (Hunker.init src [10; 15] diff) = []
       ∧ Spec.hunks 2 [10; 15] = [[10; 15]])
  ∧ (∀ src diff,
       Hunker.hunkify (Hunker.init src [10; 16] diff) = [[10]]
       ∧ Spec.hunks 2 [10; 16] = [[10]; [16]]).
Proof.
  split; [|by split].
  intros src diff a rest self.
  assert (Hscan : Spec.hunks 2 (a :: rest)
                  = Hunker.hunkify self ++ [Hunker.pending_hunk self]).
  { unfold Hunker.hunkify, Hunker.pending_hunk; simpl.
    by rewrite <- hunkify_loop_scan. }
  split; [done|]. split.
  - unfold Hunker.pending_hunk; simpl. by apply pending_loop_nonempty.
  - transitivity (concat (Spec.hunks 2 (a :: rest))).
    + rewrite Hscan, concat_app. simpl. by rewrite app_nil_r.
    + simpl. by rewrite concat_scan.
Qed.

(** ** Slices and ranges *)

Lemma fst_zip_seqZ {A} (l : list A) : ∀ a n,
  (zip (seqZ a n) l).*1 = seqZ a (Z.of_nat (length (zip (seqZ a n) l))).
Proof.
  induction l as [|x l IH]; intros a n.
  - destruct (seqZ a n); done.
  - destruct (decide (0 < n)) as [Hn|Hn].
    + rewrite (seqZ_cons a n) by done. simpl.
      rewrite IH. rewrite (seqZ_cons a (Z.of_nat (S _))) by lia.
      f_equal. f_equal. lia.
    + by rewrite seqZ_nil by lia.
Qed.

Lemma slice_prefix {A} (l : list A) (stop : Z) :
  0 ≤ stop ≤ Z.of_nat (length l) → Py.slice l None stop = take (Z.to_nat stop) l.
Proof.
  intros Hs. unfold Py.slice, Py.slice_bound; simpl.
  case_decide; [exfalso; lia|]. rewrite Z.min_l by lia. by rewrite Z.sub_0_r.
Qed.

Lemma slice_last_onwards {A} (l : list A) (stop : Z) :
  0 ≤ stop < Z.of_nat (length l) → Py.slice l (Some (-1)) stop = [].
Proof.
  intros Hs. unfold Py.slice, Py.slice_bound; simpl.
  repeat case_decide; try (exfalso; lia).
  by replace (Z.to_nat _) with 0%nat by lia.
Qed.

(** ** code_and_context *)

Lemma pad_hunk_Return self content hunk :
  hunk ≠ [] →
  ∃ a n stop start,
    Hunker.pad_hunk self content hunk
    = Return (zip (seqZ a n) (Py.slice content start stop)).
Proof.
  intros Hne. unfold Hunker.pad_hunk.
  destruct hunk as [|x hunk]; [done|]. simpl.
  unfold Py.final. destruct (last (x :: hunk)) as [y|] eqn:Hlast.
  - simpl. case_decide; unfold Py.range; repeat eexists.
  - by apply last_None in Hlast.
Qed.

Lemma code_and_context_Return fs self content :
  fs !! Hunker.src_path self = Some content →
  ∃ hunks,
    Hunker.code_and_context fs self = Return hunks
    ∧ Forall (λ hunk, ∃ a, hunk.*1 = seqZ a (Z.of_nat (length hunk))) hunks.
Proof.
  intros Hfs. unfold Hunker.code_and_context, Hunker.readlines. rewrite Hfs. simpl.
  destruct (for_each_is_Return (Hunker.pad_hunk self content) (Hunker.hunkify self))
    as [hunks Hhunks].
  { eapply Forall_impl; [apply hunkify_nonempty|]. simpl. intros hunk Hne.
    destruct (pad_hunk_Return self content hunk Hne) as (a & n & stop & start & ->).
    by eexists. }
  exists hunks. split; [done|].
  apply for_each_Return in Hhunks.
  pose proof (hunkify_nonempty self) as Hne.
  induction Hhunks as [|hunk w hunks ws Hw _ IH]; [constructor|].
  inversion Hne as [|? ? Hh Hrest]; subst.
  constructor; [|by apply IH].
  destruct (pad_hunk_Return self content hunk Hh) as (a & n & stop & start & Hpad).
  rewrite Hpad in Hw. injection Hw as <-.
  exists a. apply fst_zip_seqZ.
Qed.

(** C2 (the code departs from the claim).  With a context radius of 2, the
    window of the hunk [1] over a file of three or more lines is numbered
    0, 1, 2 and carries the text of lines 1, 2, 3: the numbering starts at 0
    instead of 1 and each number is paired with the text of the next line.
    The window of the hunk [2] over a file of five or more lines is empty.
    Through [code_and_context], the missing lines [1, 20] of a twelve-line
    file give the single window 0..2. *)
Theorem pad_hunk_start_of_file_off_by_one :
  (∀ src missing diff l1 l2 l3 rest,
     Hunker.pad_hunk (Hunker.init src missing diff) (l1 :: l2 :: l3 :: rest) [1]
     = Return [(0, l1); (1, l2); (2, l3)])
  ∧ (∀ src missing diff l1 l2 l3 l4 l5 rest,
       Hunker.pad_hunk (Hunker.init src missing diff)
         (l1 :: l2 :: l3 :: l4 :: l5 :: rest) [2]
       = Return [])
  ∧ (∀ diff l1 l2 l3 l4 l5 l6 l7 l8 l9 l10 l11 l12,
       Hunker.code_and_context
         {[ "a.py"%string := [l1; l2; l3; l4; l5; l6; l7; l8; l9; l10; l11; l12] ]}
         (Hunker.init "a.py" [1; 20] diff)
       = Return [[(0, l1); (1, l2); (2, l3)]]).
Proof.
  split; [|split].
  - intros. unfold Hunker.pad_hunk; simpl.
    rewrite slice_prefix by (simpl; lia). done.
  - intros. unfold Hunker.pad_hunk; simpl.
    rewrite slice_last_onwards by (simpl; lia).
    done.
  - done.
Qed.

(** ** Windows away from the start of the file *)

(** X1.  For a hunk whose first line is 3 or greater, [code_and_context]
    numbers the window [first - 2 .. min(last + 2, length of the file)] and
    pairs each line number [n] of it with the text of line [n]. *)
Lemma pad_hunk_interior src missing diff content hunk first final :
  head hunk = Some first → last hunk = Some final →
  3 ≤ first → first ≤ final →
  ∃ window,
    Hunker.pad_hunk (Hunker.init src missing diff) content hunk = Return window
    ∧ window.*1
      = seqZ (first - 2)
             (Z.min (final + 2) (Z.of_nat (length content)) - (first - 3))
    ∧ ∀ n code, (n, code) ∈ window → content !! Z.to_nat (n - 1) = Some code.
Proof.
  intros Hfirst Hfinal H3 Hle.
  unfold Hunker.pad_hunk, Py.first, Py.final. rewrite Hfinal.
  destruct hunk as [|x hunk]; [done|]. injection Hfirst as ->.
  cbn [mbind result_bind Hunker.lines_of_context Hunker.init].
  rewrite decide_False by lia.
  eexists. split; [done|].
  unfold Py.range, Py.slice. cbn [from_option].
  set (len := Z.of_nat (length content)).
  assert (Py.slice_bound len (first - 2 - 1) = Z.min (first - 3) len) as ->.
  { unfold Py.slice_bound. rewrite decide_False by lia. f_equal. lia. }
  assert (Py.slice_bound len (final + 2) = Z.min (final + 2) len) as ->.
  { unfold Py.slice_bound. by rewrite decide_False by lia. }
  split.
  - rewrite fst_zip_seqZ.
    rewrite length_zip_with, length_seqZ, length_take, length_drop. subst len.
    destruct (decide (first - 3 < Z.of_nat (length content))).
    + f_equal. lia.
    + rewrite !seqZ_nil by lia. done.
  - intros n code [i Hi]%list_elem_of_lookup.
    apply lookup_zip_with_Some in Hi as (n' & code' & [= <- <-] & Hn & Hcode).
    apply lookup_seqZ in Hn as [-> Hn].
    apply lookup_take_Some in Hcode as [Hcode Hi].
    rewrite lookup_drop in Hcode.
    pose proof (lookup_lt_Some _ _ _ Hcode) as Hlt.
    rewrite <- Hcode. f_equal. lia.
Qed.

(** X1 at the hunk [4, 5] over a file of eight lines. *)
Lemma pad_hunk_interior_witness :
  ∃ window,
    Hunker.pad_hunk
      (Hunker.init "a.py" [4; 5; 30]
         {| DiffReporter.name := "HEAD"; DiffReporter.src_paths_changed := ["a.py"%string];
            DiffReporter.lines_changed := λ _, [4; 5] |})
      ["a"; "b"; "c"; "d"; "e"; "f"; "g"; "h"]%string [4; 5]
    = Return window
    ∧ window.*1 = seqZ (4 - 2) (Z.min (5 + 2) 8 - (4 - 3))
    ∧ ∀ n code, (n, code) ∈ window →
        (["a"; "b"; "c"; "d"; "e"; "f"; "g"; "h"]%string : list string)
          !! Z.to_nat (n - 1) = Some code.
Proof.
  apply (pad_hunk_interior "a.py" [4; 5; 30] _
           ["a"; "b"; "c"; "d"; "e"; "f"; "g"; "h"]%string [4; 5] 4 5);
    by_computation.
Defined.

(** ** classify *)

Lemma classify_hunk_fmap self hunk :
  Hunker.classify_hunk self hunk = Return (Hunker.classify_line self <$> hunk).
Proof.
  unfold Hunker.classify_hunk.
  enough (Hn : ∀ n, (n ≤ length hunk)%nat →
            foldl (λ acc i,
                     current_hunk ← acc;
                     p ← Py.index hunk i;
                     mret (current_hunk ++ [Hunker.classify_line self p]))
                  (mret []) (seq 0 n)
            = Return (Hunker.classify_line self <$> take n hunk)).
  { rewrite Hn by done. by rewrite firstn_all. }
  induction n as [|n IH]; intros Hle; [done|].
  rewrite seq_S, foldl_app, IH by lia. simpl.
  destruct (lookup_lt_is_Some_2 hunk n) as [p Hp]; [lia|].
  unfold Py.index. rewrite Hp. simpl.
  by rewrite (take_S_r _ _ _ Hp), fmap_app.
Qed.

Lemma classify_line_spec src missing diff p :
  Hunker.classify_line (Hunker.init src missing diff) p
  = Hunker.Line p.1 p.2
      (Spec.classification missing (DiffReporter.lines_changed diff src) p.1).
Proof.
  unfold Hunker.classify_line, Spec.classification, Py.contains; simpl.
  by repeat case_bool_decide; repeat case_decide.
Qed.

Lemma classify_fmap fs self :
  Hunker.classify fs self
  = (hunks ← Hunker.code_and_context fs self;
     Return (fmap (M:=list) (fmap (M:=list) (Hunker.classify_line self)) hunks)).
Proof.
  unfold Hunker.classify.
  destruct (Hunker.code_and_context fs self) as [hunks|e]; simpl; [|done].
  apply for_each_pure, Forall_forall. intros hunk _. apply classify_hunk_fmap.
Qed.

(** C6.  [classify] tags every line of every padded window, in the order of
    the window: VIOLATION when the line number is one of the missing lines,
    else NEWCONTEXT when it is one of the changed lines of the diff, else
    OLDCONTEXT.  The window 8..12 with the missing line 10 and the changed
    lines 9, 10, 11 is tagged OLDCONTEXT, NEWCONTEXT, VIOLATION, NEWCONTEXT,
    OLDCONTEXT. *)
Theorem classify_follows_rule :
  (∀ fs src missing diff,
     let rule := Spec.classification missing (DiffReporter.lines_changed diff src) in
     Hunker.classify fs (Hunker.init src missing diff)
     = (windows ← Hunker.code_and_context fs (Hunker.init src missing diff);
        Return (fmap (M:=list)
                  (fmap (M:=list) (λ p, Hunker.Line p.1 p.2 (rule p.1))) windows)))
  ∧ (∀ src missing diff window,
       let rule := Spec.classification missing (DiffReporter.lines_changed diff src) in
       Hunker.classify_hunk (Hunker.init src missing diff) window
       = Return ((λ p, Hunker.Line p.1 p.2 (rule p.1)) <$> window))
  ∧ (∀ src name paths c8 c9 c10 c11 c12,
       let diff := {| DiffReporter.name := name;
                      DiffReporter.src_paths_changed := paths;
                      DiffReporter.lines_changed := λ _, [9; 10; 11] |} in
       Hunker.classify_hunk (Hunker.init src [10] diff)
         (zip (Py.range 8 13) [c8; c9; c10; c11; c12])
       = Return [Hunker.Line 8 c8 "OLDCONTEXT"; Hunker.Line 9 c9 "NEWCONTEXT";
                 Hunker.Line 10 c10 "VIOLATION"; Hunker.Line 11 c11 "NEWCONTEXT";
                 Hunker.Line 12 c12 "OLDCONTEXT"]).
Proof.
  split; [|split].
  - intros. rewrite classify_fmap.
    destruct (Hunker.code_and_context _ _) as [windows|e]; simpl; [|done].
    f_equal. apply list_fmap_ext. intros _ window _.
    apply list_fmap_ext. intros _ p _. apply classify_line_spec.
  - intros. rewrite classify_hunk_fmap. f_equal.
    apply list_fmap_ext. intros _ p _. apply classify_line_spec.
  - intros. by rewrite classify_hunk_fmap.
Qed.

(** C10.  When the source file can be read, [classify] returns, and in
    every hunk it returns the line numbers are consecutive integers (each
    one more than the one before) and every tag is one of the strings
    VIOLATION, NEWCONTEXT and OLDCONTEXT. *)
Theorem classified_hunks_consecutive_and_tagged fs src missing diff content :
  fs !! src = Some content →
  ∃ hunks,
    Hunker.classify fs (Hunker.init src missing diff) = Return hunks
    ∧ Forall (λ hunk,
        (∃ start, Hunker.line_num <$> hunk = seqZ start (Z.of_nat (length hunk)))
        ∧ Forall (λ l, Hunker.line_type l = "VIOLATION"%string
                       ∨ Hunker.line_type l = "NEWCONTEXT"%string
                       ∨ Hunker.line_type l = "OLDCONTEXT"%string) hunk) hunks.
Proof.
  intros Hfs. set (self := Hunker.init src missing diff).
  destruct (code_and_context_Return fs self content Hfs) as (windows & Hw & Hseq).
  exists (fmap (M:=list) (fmap (M:=list) (Hunker.classify_line self)) windows).
  split.
  { by rewrite classify_fmap, Hw. }
  apply Forall_fmap. eapply Forall_impl; [exact Hseq|].
  intros window [a Ha]; simpl. split.
  - exists a. rewrite length_fmap, <- Ha, <- list_fmap_compose.
    apply list_fmap_ext. intros _ p _; simpl.
    unfold Hunker.classify_line. by repeat case_match.
  - apply Forall_fmap, Forall_forall. intros p _; simpl.
    unfold Hunker.classify_line. repeat case_match; simpl; auto.
Qed.

(** C10 at a file of eight lines with the missing lines 4 and 20. *)
Lemma classified_hunks_consecutive_and_tagged_witness :
  ∃ hunks,
    Hunker.classify
      {[ "a.py"%string := ["a"; "b"; "c"; "d"; "e"; "f"; "g"; "h"]%string ]}
      (Hunker.init "a.py" [4; 20]
         {| DiffReporter.name := "HEAD"; DiffReporter.src_paths_changed := ["a.py"%string];
            DiffReporter.lines_changed := λ _, [3; 4] |})
    = Return hunks
    ∧ Forall (λ hunk,
        (∃ start, Hunker.line_num <$> hunk = seqZ start (Z.of_nat (length hunk)))
        ∧ Forall (λ l, Hunker.line_type l = "VIOLATION"%string
                       ∨ Hunker.line_type l = "NEWCONTEXT"%string
                       ∨ Hunker.line_type l = "OLDCONTEXT"%string) hunk) hunks.
Proof.
  apply (classified_hunks_consecutive_and_tagged _ _ _ _
           ["a"; "b"; "c"; "d"; "e"; "f"; "g"; "h"]%string).
  reflexivity.
Defined.

(** ** DiffViolations *)

(** C3 as stated fails: with a violation on the changed line 3 and the
    reported measured lines 1 and 2, [lines] is {3} and [measured_lines] is
    {1, 2}, so the violation lines are not among the measured lines. *)
Lemma violation_outside_measured_lines :
  let dv := DiffViolations.init [{| Violation.line := 3 |}] (Some [1; 2]) [1; 2; 3] in
  DiffViolations.lines dv = {[3]}
  ∧ DiffViolations.measured_lines dv = {[1; 2]}
  ∧ ¬ (DiffViolations.lines dv ⊆ DiffViolations.measured_lines dv).
Proof.
  cbv zeta. split; [by_computation|]. split; [by_computation|].
  decide_by_computation.
Qed.

(** C3, amended.  For every violations collection, measured-lines answer
    and changed-lines collection, the violation lines and the measured lines
    of the constructed [DiffViolations] are both subsets of the changed
    lines; the violation lines are a subset of the measured lines exactly
    when the reporter gives no measured lines ([None]) or every violation on
    a changed line is on a reported measured line. *)
Theorem diff_violations_containment violations measured diff_lines :
  let dv := DiffViolations.init violations measured diff_lines in
  DiffViolations.lines dv ⊆ list_to_set diff_lines
  ∧ DiffViolations.measured_lines dv ⊆ list_to_set diff_lines
  ∧ (DiffViolations.lines dv ⊆ DiffViolations.measured_lines dv
     ↔ match measured with
       | None => True
       | Some reported =>
           ∀ v, v ∈ violations → Violation.line v ∈ diff_lines →
                Violation.line v ∈ reported
       end).
Proof.
  simpl.
  assert (Hlines : list_to_set (Violation.line <$> violations) ∩ list_to_set diff_lines
                   ⊆ (list_to_set diff_lines : gset Z))
    by apply intersection_subseteq_r.
  split; [exact Hlines|]. split.
  { destruct measured; [apply intersection_subseteq_r|done]. }
  destruct measured as [reported|]; [|by split].
  split.
  - intros Hsub v Hv Hd. specialize (Hsub (Violation.line v)).
    rewrite !elem_of_intersection, !elem_of_list_to_set, list_elem_of_fmap in Hsub.
    apply Hsub. eauto.
  - intros Hall x.
    rewrite !elem_of_intersection, !elem_of_list_to_set, list_elem_of_fmap.
    intros [(v & -> & Hv) Hd]. auto.
Qed.

(** ** The dictionary of [_diff_violations] *)

Lemma lookup_diff_violations self src_path :
  BaseReportGenerator._diff_violations self !! src_path
  = if decide (src_path ∈ DiffReporter.src_paths_changed (BaseReportGenerator._diff self))
    then Some (entry self src_path) else None.
Proof.
  unfold BaseReportGenerator._diff_violations. fold (entry self).
  generalize (DiffReporter.src_paths_changed (BaseReportGenerator._diff self)).
  intros paths.
  enough (H : ∀ d : gmap string DiffViolations.t,
            foldl (λ d p, <[p := entry self p]> d) d paths !! src_path
            = if decide (src_path ∈ paths) then Some (entry self src_path)
              else d !! src_path).
  { rewrite H. by case_decide. }
  induction paths as [|p paths IH]; intros d; simpl.
  - done.
  - rewrite IH. destruct (decide (src_path ∈ paths)) as [Hin|Hnin].
    + rewrite decide_True by (apply elem_of_cons; auto). done.
    + destruct (decide (p = src_path)) as [->|Hne].
      * rewrite decide_True by (apply elem_of_cons; auto). by rewrite lookup_insert_eq.
      * rewrite decide_False by (apply not_elem_of_cons; auto).
        by rewrite lookup_insert_ne.
Qed.

Lemma lookup_diff_violations_Some self src_path dv :
  BaseReportGenerator._diff_violations self !! src_path = Some dv
  ↔ src_path ∈ DiffReporter.src_paths_changed (BaseReportGenerator._diff self)
    ∧ dv = entry self src_path.
Proof.
  rewrite lookup_diff_violations. case_decide as Hin.
  - split; [by intros [= <-]|by intros [_ ->]].
  - split; [done|by intros [? _]].
Qed.

Lemma len_set_pos (s : gset Z) : 0 < Py.len_set s ↔ s ≠ ∅.
Proof.
  unfold Py.len_set.
  rewrite <- (leibniz_equiv_iff s ∅), <- size_non_empty_iff. lia.
Qed.

(** C7.  [src_paths] holds exactly the paths whose [DiffViolations] entry
    has a non-empty [measured_lines]; a path of the diff whose entry has no
    measured line is not in it. *)
Theorem src_paths_measured self src_path :
  (src_path ∈ BaseReportGenerator.src_paths self
   ↔ ∃ dv, BaseReportGenerator._diff_violations self !! src_path = Some dv
           ∧ DiffViolations.measured_lines dv ≠ ∅)
  ∧ (∀ dv, BaseReportGenerator._diff_violations self !! src_path = Some dv →
           DiffViolations.measured_lines dv = ∅ →
           src_path ∈ DiffReporter.src_paths_changed (BaseReportGenerator._diff self)
           ∧ src_path ∉ BaseReportGenerator.src_paths self).
Proof.
  assert (Hiff : src_path ∈ BaseReportGenerator.src_paths self
   ↔ ∃ dv, BaseReportGenerator._diff_violations self !! src_path = Some dv
           ∧ DiffViolations.measured_lines dv ≠ ∅).
  { unfold BaseReportGenerator.src_paths. rewrite elem_of_dom. unfold is_Some.
    setoid_rewrite map_lookup_filter_Some. simpl.
    setoid_rewrite len_set_pos. done. }
  split; [done|].
  intros dv Hdv Hempty. split.
  - by apply lookup_diff_violations_Some in Hdv as [? _].
  - rewrite Hiff. intros (dv' & Hdv' & Hne). congruence.
Qed.

(** C8.  The [measured_lines] of the entry of a path are all the changed
    lines of the path when the violation reporter answers [None], and
    otherwise the reported measured lines that are changed lines. *)
Theorem measured_lines_default self src_path dv :
  BaseReportGenerator._diff_violations self !! src_path = Some dv →
  let changed := DiffReporter.lines_changed (BaseReportGenerator._diff self) src_path in
  DiffViolations.measured_lines dv
  = match ViolationReporter.measured_lines (BaseReportGenerator._violations self) src_path with
    | None => list_to_set changed
    | Some reported => list_to_set reported ∩ list_to_set changed
    end.
Proof. intros [_ ->]%lookup_diff_violations_Some. done. Qed.

(** ** Binary64 rounding *)

Section binary64.

Abbreviation fexp := (fexp PyFloat.prec PyFloat.emax).

Lemma fexp_eq e : fexp e = Z.max (e - 53) (-1074).
Proof. reflexivity. Qed.

(** *** Digits *)

Lemma digits2_pos_size p : digits2_pos p = Pos.size p.
Proof. induction p; simpl; congruence. Qed.

Lemma Zdigits2_bounds m :
  0 < m → 2 ^ (Zdigits2 m - 1) ≤ m < 2 ^ Zdigits2 m.
Proof.
  destruct m as [|p|p]; try lia. intros _. simpl.
  rewrite digits2_pos_size.
  assert (Z.pos p < 2 ^ Z.pos (Pos.size p)) as Hgt.
  { change 2 with (Z.pos 2). rewrite <- Pos2Z.inj_pow. apply Pos2Z.pos_lt_pos, Pos.size_gt. }
  assert (2 ^ Z.pos (Pos.size p) ≤ 2 * Z.pos p) as Hle.
  { change 2 with (Z.pos 2) at 1. rewrite <- Pos2Z.inj_pow.
    apply Pos2Z.pos_le_pos, Pos.size_le. }
  split; [|done].
  replace (Z.pos (Pos.size p)) with (Z.succ (Z.pos (Pos.size p) - 1)) in Hle by lia.
  rewrite Z.pow_succ_r in Hle by lia. lia.
Qed.

Lemma Zdigits2_le m k : 0 < m → m < 2 ^ k → Zdigits2 m ≤ k.
Proof.
  intros Hm Hk. pose proof (Zdigits2_bounds m Hm) as [Hlo _].
  destruct (decide (Zdigits2 m ≤ k)) as [|Hn]; [done|exfalso].
  assert (2 ^ k ≤ 2 ^ (Zdigits2 m - 1)); [|lia].
  apply Z.pow_le_mono_r; [lia|]. lia.
Qed.

Lemma Zdigits2_ge m k : 0 ≤ k → 2 ^ k ≤ m → k + 1 ≤ Zdigits2 m.
Proof.
  intros Hk Hm. assert (0 < m) as Hpos by (pose proof (Z.pow_pos_nonneg 2 k); lia).
  pose proof (Zdigits2_bounds m Hpos) as [_ Hhi].
  destruct (decide (k + 1 ≤ Zdigits2 m)) as [|Hn]; [done|exfalso].
  assert (2 ^ Zdigits2 m ≤ 2 ^ k); [|lia].
  apply Z.pow_le_mono_r; lia.
Qed.

Lemma Zdigits2_mono a b : 0 < a ≤ b → Zdigits2 a ≤ Zdigits2 b.
Proof.
  intros Hab. pose proof (Zdigits2_bounds b ltac:(lia)) as [_ Hb].
  apply Zdigits2_le; lia.
Qed.

Lemma Zdigits2_mul_pow2 m k :
  0 < m → 0 ≤ k → Zdigits2 (m * 2 ^ k) = Zdigits2 m + k.
Proof.
  intros Hm Hk. pose proof (Zdigits2_bounds m Hm) as [Hlo Hhi].
  assert (0 < 2 ^ k) as Hpow by (apply Z.pow_pos_nonneg; lia).
  assert (1 ≤ Zdigits2 m) as Hd by (destruct m; simpl; lia).
  apply Z.le_antisymm.
  - apply Zdigits2_le; [lia|]. rewrite Z.pow_add_r by lia. nia.
  - replace (Zdigits2 m + k) with (Zdigits2 m - 1 + k + 1) by lia.
    apply Zdigits2_ge; [lia|]. rewrite Z.pow_add_r by lia. nia.
Qed.

(** *** Shifting right *)

Lemma iter_pos_nat {A} (f : A → A) p x :
  SpecFloat.iter_pos f p x = Nat.iter (Pos.to_nat p) f x.
Proof.
  revert x. induction p as [p IH|p IH|]; intros x; [| |done].
  - rewrite Pos2Nat.inj_xI. cbn [SpecFloat.iter_pos]. rewrite !IH.
    replace (S (2 * Pos.to_nat p)) with (Pos.to_nat p + (Pos.to_nat p + 1))%nat by lia.
    by rewrite !Nat.iter_add.
  - rewrite Pos2Nat.inj_xO. cbn [SpecFloat.iter_pos]. rewrite !IH.
    replace (2 * Pos.to_nat p)%nat with (Pos.to_nat p + Pos.to_nat p)%nat by lia.
    by rewrite Nat.iter_add.
Qed.

Lemma shr_1_bits mrs :
  0 ≤ shr_m mrs →
  shr_m (shr_1 mrs) = shr_m mrs `div` 2
  ∧ shr_r (shr_1 mrs) = bool_decide (shr_m mrs `mod` 2 = 1)
  ∧ shr_s (shr_1 mrs) = shr_r mrs || shr_s mrs.
Proof.
  destruct mrs as [m r s]. cbn [shr_m shr_r shr_s]. intros Hm.
  destruct m as [|[p|p|]|p]; cbn [shr_1 shr_m shr_r shr_s]; try lia;
    [| rewrite (Pos2Z.inj_xI p) | rewrite (Pos2Z.inj_xO p) |];
    (split; [Z.div_mod_to_equations; lia|]); (split; [|done]);
    symmetry; [apply bool_decide_eq_false|apply bool_decide_eq_true
              |apply bool_decide_eq_false|apply bool_decide_eq_true];
    Z.div_mod_to_equations; lia.
Qed.

Lemma iter_shr_1_m k mrs :
  0 ≤ shr_m mrs → shr_m (Nat.iter k shr_1 mrs) = shr_m mrs `div` 2 ^ Z.of_nat k.
Proof.
  intros Hm. induction k as [|k IH].
  - simpl. by rewrite Z.div_1_r.
  - change (Nat.iter (S k) shr_1 mrs) with (shr_1 (Nat.iter k shr_1 mrs)).
    assert (0 < 2 ^ Z.of_nat k) by (apply Z.pow_pos_nonneg; lia).
    destruct (shr_1_bits (Nat.iter k shr_1 mrs)) as [-> _].
    { rewrite IH. apply Z.div_pos; lia. }
    rewrite IH, Nat2Z.inj_succ, Z.pow_succ_r, Z.div_div by lia.
    f_equal. lia.
Qed.

Lemma iter_shr_1_bits m0 k :
  0 ≤ m0 →
  shifted_out m0 (Z.of_nat (S k))
    (Nat.iter (S k) shr_1 (shr_record_of_loc m0 loc_Exact)).
Proof.
  intros Hm0. induction k as [|k (IHm & IHr & IHs)].
  - cbn [Nat.iter nat_rect]. 
    destruct (shr_1_bits (shr_record_of_loc m0 loc_Exact)) as (Hm & Hr & Hs); [done|].
    cbn [shr_record_of_loc shr_m shr_r shr_s] in *. 
    change (Z.of_nat 1) with 1. change (1 - 1) with 0. change (2 ^ 1) with 2. change (2 ^ 0) with 1.
    split; [done|]. split.
    + rewrite Hr. apply bool_decide_ext. Z.div_mod_to_equations; lia.
    + rewrite Hs. symmetry. apply bool_decide_eq_false. rewrite Z.mod_1_r. auto.
  - set (mrs := Nat.iter (S k) shr_1 (shr_record_of_loc m0 loc_Exact)) in *.
    change (Nat.iter (S (S k)) shr_1 (shr_record_of_loc m0 loc_Exact)) with (shr_1 mrs).
    set (K := Z.of_nat (S k)) in *.
    assert (1 ≤ K) as HK by (unfold K; lia).
    replace (Z.of_nat (S (S k))) with (K + 1) by (unfold K; lia).
    unfold shifted_out. replace (K + 1 - 1) with K by lia.
    assert (0 < 2 ^ K) as Hpow by (apply Z.pow_pos_nonneg; lia).
    assert (0 < 2 ^ (K - 1)) as Hpow' by (apply Z.pow_pos_nonneg; lia).
    assert (2 ^ K = 2 ^ (K - 1) * 2) as HK2.
    { replace K with (K - 1 + 1) at 1 by lia. rewrite Z.pow_add_r by lia. done. }
    destruct (shr_1_bits mrs) as (Hm & Hr & Hs).
    { rewrite IHm. apply Z.div_pos; lia. }
    rewrite Hm, Hr, Hs, IHm, IHr, IHs.
    rewrite Z.pow_add_r by lia. change (2 ^ 1) with 2.
    pose proof (Z.rem_mul_r m0 (2 ^ K) 2 ltac:(lia) ltac:(lia)) as Hrem.
    pose proof (Z.rem_mul_r m0 (2 ^ (K - 1)) 2 ltac:(lia) ltac:(lia)) as Hrem'.
    rewrite <- HK2 in Hrem'.
    pose proof (Z.mod_pos_bound m0 (2 ^ K) Hpow).
    pose proof (Z.mod_pos_bound m0 (2 ^ (K - 1)) Hpow').
    pose proof (Z.mod_pos_bound (m0 `div` 2 ^ K) 2 ltac:(lia)).
    pose proof (Z.mod_pos_bound (m0 `div` 2 ^ (K - 1)) 2 ltac:(lia)).
    split; [by rewrite Z.div_div by lia|]. split.
    + apply bool_decide_ext. rewrite Hrem.
      set (b := (m0 `div` 2 ^ K) `mod` 2) in *.
      assert (b = 0 ∨ b = 1) as [-> | ->] by lia; lia.
    + rewrite <- bool_decide_or. apply bool_decide_ext. rewrite Hrem'.
      set (b := (m0 `div` 2 ^ (K - 1)) `mod` 2) in *.
      assert (b = 0 ∨ b = 1) as [-> | ->] by lia; lia.
Qed.

Lemma shr_nonpos mrs e n : n ≤ 0 → shr mrs e n = (mrs, e).
Proof. destruct n; [done|lia|done]. Qed.

(** [shr] by [n] bits divides the mantissa by [2^n], and loses nothing when
    nothing was lost before and the bits shifted out are zero. *)
Lemma shr_spec m l e n :
  0 ≤ m → 0 ≤ n →
  let '(mrs, e') := shr (shr_record_of_loc m l) e n in
  shr_m mrs = m `div` 2 ^ n
  ∧ e' = e + n
  ∧ (l = loc_Exact → m `mod` 2 ^ n = 0 → loc_of_shr_record mrs = loc_Exact).
Proof.
  intros Hm Hn.
  assert (Hrec : shr_m (shr_record_of_loc m l) = m) by (by destruct l as [|[]]).
  destruct n as [|p|p]; [| |lia]; cbn [shr].
  - rewrite Hrec, Z.div_1_r. split; [done|]. split; [lia|]. by intros -> _.
  - rewrite iter_pos_nat. split; [|split; [done|]].
    + rewrite iter_shr_1_m, Hrec, positive_nat_Z by (by rewrite Hrec). done.
    + intros -> Hmod.
      destruct (Pos2Nat.is_succ p) as [k Hk]. rewrite Hk.
      pose proof (iter_shr_1_bits m k Hm) as (_ & Hr & Hs).
      replace (Z.of_nat (S k)) with (Z.pos p) in * by lia.
      assert (0 < 2 ^ (Z.pos p - 1)) as Hh by (apply Z.pow_pos_nonneg; lia).
      assert (2 ^ Z.pos p = 2 ^ (Z.pos p - 1) * 2) as Hpow.
      { replace (Z.pos p) with (Z.pos p - 1 + 1) at 1 by lia.
        rewrite Z.pow_add_r by lia. done. }
      pose proof (Z.rem_mul_r m (2 ^ (Z.pos p - 1)) 2 ltac:(lia) ltac:(lia)) as Hrem.
      rewrite <- Hpow, Hmod in Hrem.
      pose proof (Z.mod_pos_bound m (2 ^ (Z.pos p - 1)) Hh).
      pose proof (Z.mod_pos_bound (m `div` 2 ^ (Z.pos p - 1)) 2 ltac:(lia)).
      rewrite Hmod in Hr.
      rewrite bool_decide_eq_false_2 in Hr by lia.
      rewrite bool_decide_eq_false_2 in Hs by nia.
      destruct (Nat.iter (S k) shr_1 _) as [m' r' s']. simpl in *. by subst.
Qed.

Lemma fst_shr mrs e e' n : fst (shr mrs e n) = fst (shr mrs e' n).
Proof. by destruct n. Qed.

(** *** Rounding to nearest, ties to even *)

Lemma round_nearest_even_bounds m l :
  m ≤ round_nearest_even m l ≤ m + 1.
Proof. destruct l as [|[]]; simpl; try lia. destruct (Z.even m); lia. Qed.



(** Rounding to nearest even, from the quotient and the remainder of the
    shift. *)
Lemma round_shift_spec n k :
  0 ≤ n → 0 < k →
  let q := n `div` 2 ^ k in
  let r := n `mod` 2 ^ k in
  let h := 2 ^ (k - 1) in
  round_shift n k
  = if decide (r < h) then q
    else if decide (r = h) then (if Z.even q then q else q + 1)
    else q + 1.
Proof.
  intros Hn Hk q r h. unfold round_shift.
  destruct k as [|p|p]; [lia| |lia]. cbn [shr fst].
  rewrite iter_pos_nat.
  destruct (Pos2Nat.is_succ p) as [k' Hk']. rewrite Hk'.
  pose proof (iter_shr_1_bits n k' Hn) as (Hm & Hr & Hs).
  replace (Z.of_nat (S k')) with (Z.pos p) in * by lia.
  fold q in Hm. fold r in Hr. fold h in Hr, Hs.
  assert (0 < h) as Hh by (apply Z.pow_pos_nonneg; lia).
  assert (2 ^ Z.pos p = h * 2) as Hpow.
  { unfold h. replace (Z.pos p) with (Z.pos p - 1 + 1) at 1 by lia.
    rewrite Z.pow_add_r by lia. done. }
  pose proof (Z.rem_mul_r n h 2 ltac:(lia) ltac:(lia)) as Hrem.
  rewrite <- Hpow in Hrem. fold r in Hrem.
  pose proof (Z.mod_pos_bound n h Hh).
  pose proof (Z.mod_pos_bound (n `div` h) 2 ltac:(lia)).
  set (b := (n `div` h) `mod` 2) in *.
  destruct (Nat.iter (S k') shr_1 (shr_record_of_loc n loc_Exact)) as [m' r' s'].
  cbn [shr_m shr_r shr_s] in *. subst m' r' s'.
  assert (b = 0 ∨ b = 1) as [Hb | Hb] by lia; rewrite Hb in Hrem;
    repeat case_bool_decide; repeat case_decide; simpl; try done; try lia.
Qed.

Lemma round_shift_bounds n k :
  0 ≤ n → 0 < k → n `div` 2 ^ k ≤ round_shift n k ≤ n `div` 2 ^ k + 1.
Proof.
  intros Hn Hk. rewrite round_shift_spec by done.
  repeat case_decide; try destruct (Z.even _); lia.
Qed.

Lemma round_shift_mono k x y :
  0 < k → 0 ≤ x ≤ y → round_shift x k ≤ round_shift y k.
Proof.
  intros Hk Hxy. rewrite !round_shift_spec by lia.
  assert (0 < 2 ^ k) as Hpow by (apply Z.pow_pos_nonneg; lia).
  assert (2 ^ k = 2 ^ (k - 1) * 2) as Hpow2.
  { replace k with (k - 1 + 1) at 1 by lia. rewrite Z.pow_add_r by lia. done. }
  pose proof (Z.div_mod x (2 ^ k) ltac:(lia)) as Hx.
  pose proof (Z.div_mod y (2 ^ k) ltac:(lia)) as Hy.
  pose proof (Z.mod_pos_bound x (2 ^ k) Hpow).
  pose proof (Z.mod_pos_bound y (2 ^ k) Hpow).
  set (qx := x `div` 2 ^ k) in *. set (rx := x `mod` 2 ^ k) in *.
  set (qy := y `div` 2 ^ k) in *. set (ry := y `mod` 2 ^ k) in *.
  set (h := 2 ^ (k - 1)) in *.
  assert (qx ≤ qy) as Hq by nia.
  destruct (decide (qx = qy)) as [Heq|Hne].
  - rewrite <- Heq in *. assert (rx ≤ ry) by lia.
    repeat case_decide; destruct (Z.even qx); lia.
  - assert (qx + 1 ≤ qy) by lia.
    repeat case_decide; destruct (Z.even qx); destruct (Z.even qy); lia.
Qed.



(** *** The result of rounding, by cases *)

(** [binary_round_aux] shifts down to the exponent [e1] of the format,
    rounds, and renormalizes when the mantissa carries into bit 53. *)
Lemma binary_round_aux_cases mx ex lx :
  0 < mx →
  let e1 := fexp (Zdigits2 mx + ex) in
  ex ≤ e1 →
  let mrs := fst (shr (shr_record_of_loc mx lx) ex (e1 - ex)) in
  let m2 := round_nearest_even (shr_m mrs) (loc_of_shr_record mrs) in
  shr_m mrs < 2 ^ 53
  ∧ binary_round_aux PyFloat.prec PyFloat.emax false mx ex lx
    = if decide (m2 = 0) then S754_zero false
      else if decide (m2 = 2 ^ 53) then
        if e1 + 1 <=? 971 then S754_finite false (2 ^ 52)%positive (e1 + 1)
        else S754_infinity false
      else
        if e1 <=? 971 then S754_finite false (Z.to_pos m2) e1
        else S754_infinity false.
Proof.
  intros Hmx e1 Hn1 mrs m2.
  unfold binary_round_aux, shr_fexp. fold e1.
  pose proof (shr_spec mx lx ex (e1 - ex)) as Hshr.
  subst m2 mrs.
  destruct (shr (shr_record_of_loc mx lx) ex (e1 - ex)) as [mrs' e'].
  destruct Hshr as (Hm1 & -> & _); [lia|lia|]. cbn [fst].
  replace (ex + (e1 - ex)) with e1 by lia.
  pose proof (round_nearest_even_bounds (shr_m mrs') (loc_of_shr_record mrs')) as Hm2.
  set (m2 := round_nearest_even (shr_m mrs') (loc_of_shr_record mrs')) in *.
  assert (0 < 2 ^ (e1 - ex)) as Hpow by (apply Z.pow_pos_nonneg; lia).
  assert (0 ≤ shr_m mrs') as Hm1pos by (rewrite Hm1; apply Z.div_pos; lia).
  assert (shr_m mrs' < 2 ^ 53) as Hm1lt.
  { rewrite Hm1. apply Z.div_lt_upper_bound; [done|].
    pose proof (Zdigits2_bounds mx Hmx) as [_ Hd].
    eapply Z.lt_le_trans; [exact Hd|].
    rewrite <- Z.pow_add_r by lia. apply Z.pow_le_mono_r; [lia|].
    unfold e1. rewrite fexp_eq. lia. }
  split; [done|].
  assert (-1074 ≤ e1) as Hemin by (unfold e1; rewrite fexp_eq; lia).
  change (PyFloat.emax - PyFloat.prec) with 971.
  destruct (decide (m2 = 0)) as [Hz|Hnz].
  { rewrite Hz. simpl Zdigits2. rewrite shr_nonpos by (rewrite fexp_eq; lia). done. }
  destruct (decide (m2 = 2 ^ 53)) as [Htwo|Hsmall].
  - rewrite Htwo.
    replace (fexp (Zdigits2 (2 ^ 53) + e1) - e1) with 1
      by (change (Zdigits2 (2 ^ 53)) with 54; rewrite fexp_eq; lia).
    done.
  - assert (Zdigits2 m2 ≤ 53) as Hd2 by (apply Zdigits2_le; lia).
    rewrite shr_nonpos by (rewrite fexp_eq; lia).
    replace (shr_m (shr_record_of_loc m2 loc_Exact)) with m2 by done.
    by destruct m2 as [|p2|p2] eqn:Hp2; [done| |lia].
Qed.

(** Rounding a number of at least one unit in the last place never gives
    zero. *)
Lemma binary_round_aux_nonzero mx ex lx :
  0 < mx →
  ex ≤ fexp (Zdigits2 mx + ex) →
  2 ^ (fexp (Zdigits2 mx + ex) - ex) ≤ mx →
  PyFloat.is_zero (binary_round_aux PyFloat.prec PyFloat.emax false mx ex lx) = false.
Proof.
  intros Hmx Hn1 Hunit.
  destruct (binary_round_aux_cases mx ex lx Hmx Hn1) as [_ ->].
  set (e1 := fexp (Zdigits2 mx + ex)) in *.
  pose proof (shr_spec mx lx ex (e1 - ex)) as Hshr.
  destruct (shr (shr_record_of_loc mx lx) ex (e1 - ex)) as [mrs' e'].
  destruct Hshr as (Hm1 & _ & _); [lia|lia|]. cbn [fst].
  pose proof (round_nearest_even_bounds (shr_m mrs') (loc_of_shr_record mrs')) as Hm2.
  assert (0 < 2 ^ (e1 - ex)) as Hpow by (apply Z.pow_pos_nonneg; lia).
  assert (1 ≤ shr_m mrs') by (rewrite Hm1; apply Z.div_le_lower_bound; lia).
  rewrite decide_False by lia.
  by repeat case_decide; repeat case_match.
Qed.

(** An upper bound by a normal float survives rounding. *)
Lemma binary_round_aux_at_most mx ex lx mb eb :
  0 < mx →
  ex ≤ fexp (Zdigits2 mx + ex) →
  fexp (Zdigits2 mx + ex) ≤ eb → eb ≤ 971 →
  2 ^ 52 ≤ mb < 2 ^ 53 →
  (fexp (Zdigits2 mx + ex) = eb →
     mx ≤ mb * 2 ^ (eb - ex) ∧ (lx ≠ loc_Exact → mx < mb * 2 ^ (eb - ex))) →
  at_most (binary_round_aux PyFloat.prec PyFloat.emax false mx ex lx) mb eb.
Proof.
  intros Hmx Hn1 He1 Heb Hmb Hval.
  destruct (binary_round_aux_cases mx ex lx Hmx Hn1) as [Hm1lt ->].
  set (e1 := fexp (Zdigits2 mx + ex)) in *.
  pose proof (shr_spec mx lx ex (e1 - ex)) as Hshr.
  destruct (shr (shr_record_of_loc mx lx) ex (e1 - ex)) as [mrs' e'].
  destruct Hshr as (Hm1 & _ & Hloc); [lia|lia|]. cbn [fst] in *.
  set (m1 := shr_m mrs') in *.
  pose proof (round_nearest_even_bounds m1 (loc_of_shr_record mrs')) as Hm2.
  set (m2 := round_nearest_even m1 (loc_of_shr_record mrs')) in *.
  assert (0 < 2 ^ (e1 - ex)) as Hpow by (apply Z.pow_pos_nonneg; lia).
  assert (0 ≤ m1) as Hm1pos by (rewrite Hm1; apply Z.div_pos; lia).
  assert (e1 = eb → m2 ≤ mb) as Htop.
  { intros Heq. destruct (Hval Heq) as [Hle Hlt]. rewrite <- Heq in Hle, Hlt.
    destruct (decide (m1 = mb)) as [Hm1mb|Hne].
    - assert (mx = mb * 2 ^ (e1 - ex)) as Hmxeq.
      { rewrite <- Hm1mb, Hm1.
        pose proof (Z.mul_div_le mx (2 ^ (e1 - ex)) Hpow). lia. }
      assert (lx = loc_Exact) as Hlx.
      { destruct lx; [done|]. exfalso.
        assert (mx < mb * 2 ^ (e1 - ex)); [by apply Hlt|lia]. }
      unfold m2. rewrite Hloc; [simpl; lia|done|].
      rewrite Hmxeq. apply Z.mod_mul. lia.
    - assert (m1 ≤ mb); [|lia].
      rewrite Hm1. apply Z.div_le_upper_bound; lia. }
  destruct (decide (m2 = 0)); [done|].
  destruct (decide (m2 = 2 ^ 53)) as [Htwo|Hsmall].
  - assert (e1 < eb) as Hlt.
    { destruct (decide (e1 = eb)) as [Heq|]; [|lia]. specialize (Htop Heq). lia. }
    rewrite (proj2 (Z.leb_le _ _)) by lia. simpl. split; [done|]. lia.
  - rewrite (proj2 (Z.leb_le _ _)) by lia. simpl.
    rewrite Z2Pos.id by lia. split; [lia|].
    destruct (decide (e1 = eb)) as [Heq|]; [|lia]. specialize (Htop Heq). lia.
Qed.

(** *** Aligning to the left *)

Lemma iter_xO m d : Z.pos (Pos.iter xO m d) = Z.pos m * 2 ^ Z.pos d.
Proof.
  induction d as [|d IH] using Pos.peano_ind.
  - simpl. lia.
  - rewrite Pos.iter_succ, Pos2Z.inj_xO, IH, Pos2Z.inj_succ, Z.pow_succ_r by lia. lia.
Qed.

Lemma shl_align_spec m e e' :
  let '(mz, ez) := shl_align m e e' in
  ez = Z.min e e' ∧ Z.pos mz = Z.pos m * 2 ^ (e - ez).
Proof.
  unfold shl_align. destruct (e' - e) as [|d|d] eqn:Hd.
  - rewrite Z.min_l by lia. rewrite Z.sub_diag. simpl. lia.
  - rewrite Z.min_l by lia. rewrite Z.sub_diag. simpl. lia.
  - rewrite Z.min_r by lia. split; [done|].
    rewrite iter_xO. f_equal. f_equal. lia.
Qed.

Lemma binary_round_at_most m e mb eb :
  e ≤ eb → -1074 ≤ eb ≤ 971 → 2 ^ 52 ≤ mb < 2 ^ 53 →
  Z.pos m ≤ mb * 2 ^ (eb - e) →
  at_most (binary_round PyFloat.prec PyFloat.emax false m e) mb eb.
Proof.
  intros He Heb Hmb Hval. unfold binary_round.
  change (Z.pos (digits2_pos m)) with (Zdigits2 (Z.pos m)).
  set (d := Zdigits2 (Z.pos m)).
  assert (1 ≤ d) as Hd1 by (unfold d; simpl; lia).
  assert (0 < 2 ^ (eb - e)) as Hpow by (apply Z.pow_pos_nonneg; lia).
  assert (d + e ≤ 53 + eb) as Hd.
  { assert (d ≤ 53 + (eb - e)); [|lia]. apply Zdigits2_le; [lia|].
    rewrite Z.pow_add_r by lia. nia. }
  pose proof (shl_align_spec m e (fexp (d + e))) as Hal.
  destruct (shl_align m e (fexp (d + e))) as [mz ez]. destruct Hal as [Hez Hmz].
  assert (Zdigits2 (Z.pos mz) + ez = d + e) as Hdz.
  { rewrite Hmz, Zdigits2_mul_pow2 by lia. fold d. lia. }
  apply binary_round_aux_at_most; rewrite ?Hdz; try (rewrite ?fexp_eq in *; lia).
  intros Htop. split; [|done].
  rewrite Hmz. replace (eb - ez) with (eb - e + (e - ez)) by lia.
  rewrite Z.pow_add_r by lia.
  assert (0 < 2 ^ (e - ez)) by (apply Z.pow_pos_nonneg; lia). nia.
Qed.

(** *** [float(n)] for a length *)

Lemma of_int_nonzero n : 0 < n → PyFloat.is_zero (PyFloat.of_int n) = false.
Proof.
  intros Hn. destruct n as [|p|p]; [lia| |lia].
  unfold PyFloat.of_int, binary_normalize, binary_round.
  change (Z.pos (digits2_pos p)) with (Zdigits2 (Z.pos p)).
  set (d := Zdigits2 (Z.pos p)).
  assert (1 ≤ d) as Hd by (unfold d; simpl; lia).
  pose proof (shl_align_spec p 0 (fexp (d + 0))) as Hal.
  destruct (shl_align p 0 (fexp (d + 0))) as [mz ez]. destruct Hal as [Hez Hmz].
  rewrite fexp_eq in Hez.
  assert (Zdigits2 (Z.pos mz) + ez = d) as Hdz.
  { rewrite Hmz, Zdigits2_mul_pow2 by lia. fold d. lia. }
  pose proof (Zdigits2_bounds (Z.pos mz) ltac:(lia)) as [Hlo _].
  apply binary_round_aux_nonzero; rewrite ?Hdz, ?fexp_eq; try lia.
  etrans; [|exact Hlo]. apply Z.pow_le_mono_r; lia.
Qed.

Lemma mantissa53_bounds n :
  0 < n → 2 ^ 52 ≤ mantissa53 n ≤ 2 ^ 53.
Proof.
  intros Hn. unfold mantissa53.
  pose proof (Zdigits2_bounds n Hn) as [Hlo Hhi].
  assert (1 ≤ Zdigits2 n) as Hd by (destruct n; simpl; lia).
  set (d := Zdigits2 n) in *. case_decide as Hd53.
  - assert (0 < 2 ^ (53 - d)) by (apply Z.pow_pos_nonneg; lia).
    assert (2 ^ 52 = 2 ^ (d - 1) * 2 ^ (53 - d)) as ->.
    { rewrite <- Z.pow_add_r by lia. f_equal. lia. }
    assert (2 ^ 53 = 2 ^ d * 2 ^ (53 - d)) as ->.
    { rewrite <- Z.pow_add_r by lia. f_equal. lia. }
    nia.
  - pose proof (round_shift_bounds n (d - 53) ltac:(lia) ltac:(lia)) as Hr.
    assert (0 < 2 ^ (d - 53)) by (apply Z.pow_pos_nonneg; lia).
    assert (2 ^ 52 ≤ n `div` 2 ^ (d - 53) < 2 ^ 53); [|lia].
    split.
    + apply Z.div_le_lower_bound; [lia|].
      rewrite Z.mul_comm, <- Z.pow_add_r by lia.
      by replace (52 + (d - 53)) with (d - 1) by lia.
    + apply Z.div_lt_upper_bound; [lia|].
      rewrite <- Z.pow_add_r by lia.
      by replace (d - 53 + 53) with d by lia.
Qed.

(** [float(n)] for [0 < n < 2^63]. *)
Lemma of_int_mantissa53 n :
  0 < n < 2 ^ 63 →
  let d := Zdigits2 n in
  PyFloat.of_int n
  = if decide (mantissa53 n = 2 ^ 53)
    then S754_finite false (2 ^ 52)%positive (d - 52)
    else S754_finite false (Z.to_pos (mantissa53 n)) (d - 53).
Proof.
  intros [Hpos Hlt] d.
  pose proof (mantissa53_bounds n Hpos) as Hman.
  pose proof (Zdigits2_bounds n Hpos) as [Hlo Hhi]. fold d in Hlo, Hhi.
  assert (1 ≤ d ≤ 63) as Hd.
  { split; [unfold d; destruct n; simpl; lia|]. by apply Zdigits2_le. }
  destruct n as [|p|p]; [lia| |lia].
  unfold PyFloat.of_int, binary_normalize, binary_round.
  change (Z.pos (digits2_pos p)) with (Zdigits2 (Z.pos p)). fold d.
  replace (fexp (d + 0)) with (d - 53) by (rewrite fexp_eq; lia).
  pose proof (shl_align_spec p 0 (d - 53)) as Hal.
  destruct (shl_align p 0 (d - 53)) as [mz ez]. destruct Hal as [Hez Hmz].
  assert (Zdigits2 (Z.pos mz) + ez = d) as Hdz.
  { rewrite Hmz, Zdigits2_mul_pow2 by lia. fold d. lia. }
  assert (fexp (Zdigits2 (Z.pos mz) + ez) = d - 53) as He1
    by (rewrite Hdz, fexp_eq; lia).
  destruct (binary_round_aux_cases (Z.pos mz) ez loc_Exact) as [_ ->];
    rewrite ?He1; try lia.
  rewrite !(proj2 (Z.leb_le _ _)) by lia.
  unfold mantissa53 in *. fold d in Hman |- *.
  destruct (decide (d ≤ 53)) as [Hsmall|Hbig].
  - rewrite Z.min_r in Hez by lia. subst ez. rewrite Z.sub_diag.
    cbn [shr shr_record_of_loc fst shr_m loc_of_shr_record round_nearest_even].
    rewrite Hmz. replace (0 - (d - 53)) with (53 - d) by lia.
    rewrite decide_False by lia.
    assert (Z.pos p * 2 ^ (53 - d) < 2 ^ 53) as Hlt53.
    { assert (0 < 2 ^ (53 - d)) by (apply Z.pow_pos_nonneg; lia).
      assert (2 ^ 53 = 2 ^ d * 2 ^ (53 - d)) as ->; [|nia].
      rewrite <- Z.pow_add_r by lia. f_equal. lia. }
    by rewrite !decide_False by lia.
  - rewrite Z.min_l in Hez by lia. subst ez. rewrite Z.pow_0_r, Z.mul_1_r in Hmz.
    rewrite Hmz. replace (d - 53 - 0) with (d - 53) by lia.
    change (round_nearest_even _ _) with (round_shift (Z.pos p) (d - 53)).
    rewrite decide_False by lia.
    replace (d - 53 + 1) with (d - 52) by lia. done.
Qed.

Lemma mantissa53_mono c t :
  0 < c ≤ t → Zdigits2 c = Zdigits2 t → mantissa53 c ≤ mantissa53 t.
Proof.
  intros Hct Hd. unfold mantissa53. rewrite Hd. case_decide.
  - assert (0 < 2 ^ (53 - Zdigits2 t)) by (apply Z.pow_pos_nonneg; lia). nia.
  - apply round_shift_mono; lia.
Qed.

(** [float] is monotone on lengths: the doubles of [c ≤ t] are normal and
    ordered by exponent, then mantissa. *)
Lemma of_int_le c t :
  0 < c ≤ t → t < 2 ^ 63 →
  ∃ mc ec mt et,
    PyFloat.of_int c = S754_finite false mc ec
    ∧ PyFloat.of_int t = S754_finite false mt et
    ∧ 2 ^ 52 ≤ Z.pos mc < 2 ^ 53 ∧ 2 ^ 52 ≤ Z.pos mt < 2 ^ 53
    ∧ -52 ≤ ec ≤ 11 ∧ -52 ≤ et ≤ 11
    ∧ (ec < et ∨ (ec = et ∧ Z.pos mc ≤ Z.pos mt)).
Proof.
  intros Hct Ht.
  rewrite (of_int_mantissa53 c), (of_int_mantissa53 t) by lia.
  pose proof (mantissa53_bounds c ltac:(lia)) as Hmc.
  pose proof (mantissa53_bounds t ltac:(lia)) as Hmt.
  pose proof (Zdigits2_mono c t Hct) as Hd.
  assert (1 ≤ Zdigits2 c) by (destruct c; simpl; lia).
  assert (Zdigits2 t ≤ 63) by (apply Zdigits2_le; lia).
  assert (mantissa53 c = 2 ^ 53 → 53 < Zdigits2 c) as Hcarry_c.
  { unfold mantissa53. case_decide; [|lia]. intros Heq.
    pose proof (Zdigits2_bounds c ltac:(lia)) as [_ Hhi].
    assert (0 < 2 ^ (53 - Zdigits2 c)) by (apply Z.pow_pos_nonneg; lia).
    assert (2 ^ 53 = 2 ^ Zdigits2 c * 2 ^ (53 - Zdigits2 c)) as Hp; [|nia].
    rewrite <- Z.pow_add_r by lia. f_equal. lia. }
  assert (mantissa53 t = 2 ^ 53 → 53 < Zdigits2 t) as Hcarry_t.
  { unfold mantissa53. case_decide; [|lia]. intros Heq.
    pose proof (Zdigits2_bounds t ltac:(lia)) as [_ Hhi].
    assert (0 < 2 ^ (53 - Zdigits2 t)) by (apply Z.pow_pos_nonneg; lia).
    assert (2 ^ 53 = 2 ^ Zdigits2 t * 2 ^ (53 - Zdigits2 t)) as Hp; [|nia].
    rewrite <- Z.pow_add_r by lia. f_equal. lia. }
  assert (Zdigits2 c = Zdigits2 t → mantissa53 c ≤ mantissa53 t) as Hmono
    by (by apply mantissa53_mono).
  repeat case_decide; eexists _, _, _, _;
    (split; [done|]); (split; [done|]);
    rewrite ?Z2Pos.id by lia; change (Z.pos (2 ^ 52)) with (2 ^ 52); lia.
Qed.


(** *** The quotient of two lengths *)

Lemma new_location_exact nb_steps : new_location nb_steps 0 = loc_Exact.
Proof. unfold new_location. by destruct (Z.even nb_steps). Qed.

(** The quotient of a normal float by a greater or equal one is at most 1. *)
Lemma div_at_most_one mx ex my ey :
  2 ^ 52 ≤ Z.pos mx < 2 ^ 53 → 2 ^ 52 ≤ Z.pos my < 2 ^ 53 →
  -52 ≤ ex ≤ 11 → -52 ≤ ey ≤ 11 →
  ex < ey ∨ (ex = ey ∧ Z.pos mx ≤ Z.pos my) →
  at_most (SFdiv PyFloat.prec PyFloat.emax
             (S754_finite false mx ex) (S754_finite false my ey))
          (2 ^ 52) (-52).
Proof.
  intros Hmx Hmy Hex Hey Hle.
  unfold SFdiv, SFdiv_core_binary.
  assert (Zdigits2 (Z.pos mx) = 53) as ->.
  { apply Z.le_antisymm; [apply Zdigits2_le; lia|apply (Zdigits2_ge _ 52); lia]. }
  assert (Zdigits2 (Z.pos my) = 53) as ->.
  { apply Z.le_antisymm; [apply Zdigits2_le; lia|apply (Zdigits2_ge _ 52); lia]. }
  replace (Z.min (fexp (53 + ex - (53 + ey))) (ex - ey)) with (ex - ey - 53)
    by (rewrite fexp_eq; lia).
  replace (ex - ey - (ex - ey - 53)) with 53 by lia.
  cbv iota beta. rewrite Z.shiftl_mul_pow2 by lia.
  pose proof (Z_div_mod (Z.pos mx * 2 ^ 53) (Z.pos my) ltac:(lia)) as Hdiv.
  destruct (Z.div_eucl (Z.pos mx * 2 ^ 53) (Z.pos my)) as [q r].
  destruct Hdiv as [Hqr Hr]. simpl xorb.
  assert (2 ^ 52 ≤ q < 2 ^ 54) as Hq by nia.
  assert (53 ≤ Zdigits2 q ≤ 54) as Hd.
  { split; [apply (Zdigits2_ge _ 52); lia|apply Zdigits2_le; lia]. }
  apply binary_round_aux_at_most; try (rewrite ?fexp_eq; lia).
  rewrite fexp_eq. intros Htop.
  assert (ex = ey) as <- by lia.
  replace (-52 - (ex - ex - 53)) with 1 by lia.
  split; [nia|]. intros Hloc.
  assert (r ≠ 0) as Hr0.
  { intros ->. apply Hloc, new_location_exact. }
  nia.
Qed.

Lemma of_int_div_at_most_one c t :
  0 ≤ c ≤ t → 0 < t < 2 ^ 63 →
  at_most (SFdiv PyFloat.prec PyFloat.emax (PyFloat.of_int c) (PyFloat.of_int t))
          (2 ^ 52) (-52).
Proof.
  intros Hc Ht.
  destruct (decide (c = 0)) as [->|Hc0].
  { destruct (of_int_le t t) as (m & e & _ & _ & -> & _); [lia|lia|]. done. }
  destruct (of_int_le c t) as (mc & ec & mt & et & -> & -> & ? & ? & ? & ? & ?);
    [lia|lia|].
  by apply div_at_most_one.
Qed.

(** *** Times one hundred *)

(** A float between 0 and 1, times 100, is between 0 and 100. *)
Lemma mul_hundred_at_most q :
  at_most q (2 ^ 52) (-52) →
  at_most (PyFloat.mul q PyFloat.hundred) 7036874417766400 (-46).
Proof.
  destruct q as [[]|[]| |[] mq eq]; try done. intros [Hmq Hle].
  unfold PyFloat.mul, PyFloat.hundred, SFmul. simpl xorb.
  rewrite Pos2Z.inj_mul.
  set (mx := Z.pos mq * Z.pos 7036874417766400).
  assert (2 ^ 52 ≤ mx) as Hlo by (unfold mx; lia).
  assert (53 ≤ Zdigits2 mx) as Hd53 by (apply (Zdigits2_ge _ 52); lia).
  destruct Hle as [Hlt|[-> Hone]].
  - assert (Zdigits2 mx ≤ 106) as Hd by (apply Zdigits2_le; unfold mx; lia).
    apply binary_round_aux_at_most; try (rewrite ?fexp_eq; lia).
    intros _. split; [|done].
    replace (-46 - (eq + -46)) with (- eq) by lia.
    assert (2 ^ 53 ≤ 2 ^ (- eq)) by (apply Z.pow_le_mono_r; lia).
    unfold mx. nia.
  - assert (Zdigits2 mx ≤ 105) as Hd by (apply Zdigits2_le; unfold mx; lia).
    apply binary_round_aux_at_most; try (rewrite ?fexp_eq; lia).
    intros _. split; [|done].
    change (-46 - (-52 + -46)) with 52. unfold mx. lia.
Qed.

(** *** One hundred minus a percentage *)

(** 100 minus a float between 0 and 100 is between 0 and 100. *)
Lemma hundred_sub_at_most p :
  at_most p 7036874417766400 (-46) →
  at_most (PyFloat.sub PyFloat.hundred p) 7036874417766400 (-46).
Proof.
  destruct p as [[]|[]| |[] mp ep]; try done.
  { intros _. simpl. split; [done|]. right. done. }
  intros [Hmp Hle].
  unfold PyFloat.sub, PyFloat.hundred, SFsub.
  assert (ep ≤ -46) as Hep by lia.
  rewrite (Z.min_r (-46) ep) by lia.
  pose proof (shl_align_spec 7036874417766400 (-46) ep) as H100.
  destruct (shl_align 7036874417766400 (-46) ep) as [m1 e1].
  destruct H100 as [He1 Hm1]. rewrite Z.min_r in He1 by lia. subst e1.
  pose proof (shl_align_spec mp ep ep) as Hp.
  destruct (shl_align mp ep ep) as [m2 e2].
  destruct Hp as [He2 Hm2]. rewrite Z.min_l in He2 by lia. subst e2.
  rewrite Z.sub_diag in Hm2. cbn [fst cond_Zopp].
  rewrite Hm1, Hm2.
  assert (0 < 2 ^ (-46 - ep)) as Hpow by (apply Z.pow_pos_nonneg; lia).
  assert (Z.pos mp ≤ 7036874417766400 * 2 ^ (-46 - ep)) as Hdiff.
  { destruct Hle as [Hlt|[-> Hm]].
    - assert (2 ^ 1 ≤ 2 ^ (-46 - ep)); [apply Z.pow_le_mono_r; lia|]. lia.
    - change (-46 - -46) with 0. lia. }
  destruct (Z.pos 7036874417766400 * 2 ^ (-46 - ep) - Z.pos mp * 2 ^ 0)
    as [|D|D] eqn:HD; [done| |lia].
  unfold binary_normalize.
  apply binary_round_at_most; lia.
Qed.

(** *** Back to Python's comparisons and [int()] *)

(** [at_most] in terms of the comparison of floats. *)
Lemma at_most_leb x mb eb :
  at_most x (Z.pos mb) eb →
  SFleb (S754_zero false) x = true ∧ SFleb x (S754_finite false mb eb) = true.
Proof.
  destruct x as [[]|[]| |[] m e]; try done. intros [_ Hle].
  split; [done|]. unfold SFleb, SFcompare.
  destruct Hle as [Hlt|[-> Hm]].
  - by rewrite (proj2 (Z.compare_lt_iff e eb)).
  - rewrite Z.compare_refl. change (Pos.compare_cont Eq m mb) with (m ?= mb)%positive.
    destruct (Pos.compare_spec m mb); try done. lia.
Qed.

(** [int] of a float between 0 and 100. *)
Lemma to_int_at_most_hundred p :
  at_most p 7036874417766400 (-46) →
  ∃ r, PyFloat.to_int p = Return r ∧ 0 ≤ r ≤ 100.
Proof.
  destruct p as [[]|[]| |[] m e]; try done.
  { intros _. exists 0. simpl. split; [done|lia]. }
  intros [Hm Hle]. eexists. split; [done|].
  cbn [cond_Zopp].
  assert (e ≤ -46) as He by lia.
  assert (Z.shiftl (Z.pos m) e = Z.pos m `div` 2 ^ (- e)) as ->.
  { rewrite <- Z.shiftr_div_pow2 by lia. rewrite <- Z.shiftl_opp_r.
    by rewrite Z.opp_involutive. }
  assert (0 < 2 ^ (- e)) as Hpow by (apply Z.pow_pos_nonneg; lia).
  split; [apply Z.div_pos; lia|].
  apply Z.div_le_upper_bound; [lia|].
  destruct Hle as [Hlt|[-> Hmm]].
  - assert (2 ^ 47 ≤ 2 ^ (- e)); [apply Z.pow_le_mono_r; lia|]. lia.
  - change (- -46) with 46. lia.
Qed.

End binary64.

(** ** percent_covered *)

Lemma percent_covered_entry self src_path dv :
  BaseReportGenerator._diff_violations self !! src_path = Some dv →
  BaseReportGenerator.percent_covered self src_path
  = (quot ← PyFloat.truediv
              (PyFloat.of_int (Py.len_set (DiffViolations.lines dv)))
              (PyFloat.of_int (Py.len_set (DiffViolations.measured_lines dv)));
     Return (Some (PyFloat.sub PyFloat.hundred (PyFloat.mul quot PyFloat.hundred)))).
Proof. intros Hdv. unfold BaseReportGenerator.percent_covered. by rewrite Hdv. Qed.

Lemma len_set_subseteq (s1 s2 : gset Z) : s1 ⊆ s2 → Py.len_set s1 ≤ Py.len_set s2.
Proof. intros H. unfold Py.len_set. apply inj_le, subseteq_size, H. Qed.

(** C4 as stated fails: a path of the diff with no measured line has an
    entry and [percent_covered] raises [ZeroDivisionError] for it; and with
    two violation lines against one measured line the result is the float
    -100, below 0. *)
Lemma percent_covered_raises_or_is_negative :
  (let self := Examples.generator ["a.py"%string] [6] (Some []) [5; 6; 7] in
   is_Some (BaseReportGenerator._diff_violations self !! "a.py"%string)
   ∧ BaseReportGenerator.percent_covered self "a.py" = Raise ZeroDivisionError)
  ∧ (let self := Examples.generator ["a.py"%string] [6; 7] (Some [5]) [5; 6; 7] in
     ∃ x, BaseReportGenerator.percent_covered self "a.py" = Return (Some x)
          ∧ x = S754_finite true 7036874417766400 (-46)
          ∧ SFleb (S754_zero false) x = false).
Proof.
  split.
  - split; [by eexists|]. by_computation.
  - eexists. split; [by_computation|]. done.
Qed.

(** C4, amended.  For a path without entry [percent_covered] returns
    [None].  For a path whose entry has a non-empty [measured_lines] it
    returns the double 100 - float(|lines|) / |measured_lines| * 100, each
    operation rounded to nearest; this double lies between 0 and 100 when
    the violation lines are among the measured lines and these are fewer
    than 2^63, the bound of [len].  For the measured lines {5, 6, 7} and
    the violation line 6 the result is the double
    4691249611844267 * 2^-46 = 66.66666666666667. *)
Theorem percent_covered_value self src_path :
  (BaseReportGenerator._diff_violations self !! src_path = None →
   BaseReportGenerator.percent_covered self src_path = Return None)
  ∧ (∀ dv,
       BaseReportGenerator._diff_violations self !! src_path = Some dv →
       DiffViolations.measured_lines dv ≠ ∅ →
       let x :=
         PyFloat.sub PyFloat.hundred
           (PyFloat.mul
              (SFdiv PyFloat.prec PyFloat.emax
                 (PyFloat.of_int (Py.len_set (DiffViolations.lines dv)))
                 (PyFloat.of_int (Py.len_set (DiffViolations.measured_lines dv))))
              PyFloat.hundred) in
       BaseReportGenerator.percent_covered self src_path = Return (Some x)
       ∧ (DiffViolations.lines dv ⊆ DiffViolations.measured_lines dv →
          Py.len_set (DiffViolations.measured_lines dv) < 2 ^ 63 →
          SFleb (S754_zero false) x = true ∧ SFleb x PyFloat.hundred = true))
  ∧ (∀ dv,
       BaseReportGenerator._diff_violations self !! src_path = Some dv →
       DiffViolations.measured_lines dv = {[5; 6; 7]} →
       DiffViolations.lines dv = {[6]} →
       BaseReportGenerator.percent_covered self src_path
       = Return (Some (S754_finite false 4691249611844267 (-46)))).
Proof.
  split; [|split].
  - intros Hnone. unfold BaseReportGenerator.percent_covered. by rewrite Hnone.
  - intros dv Hdv Hne x. split.
    + rewrite (percent_covered_entry _ _ _ Hdv). unfold PyFloat.truediv.
      rewrite of_int_nonzero by (by apply len_set_pos). done.
    + intros Hsub Hlt. apply (at_most_leb x 7036874417766400 (-46)).
      apply hundred_sub_at_most, mul_hundred_at_most, of_int_div_at_most_one.
      * split; [unfold Py.len_set; lia|by apply len_set_subseteq].
      * split; [by apply len_set_pos|done].
  - intros dv Hdv Hm Hl. rewrite (percent_covered_entry _ _ _ Hdv), Hm, Hl.
    by_computation.
Qed.

(** C4 at one violation among five measured lines: 80.0. *)
Lemma percent_covered_value_witness :
  let self := Examples.generator ["a.py"%string] [3] (Some [1; 2; 3; 4; 5]) [1; 2; 3; 4; 5] in
  let dv := entry self "a.py" in
  BaseReportGenerator.percent_covered self "a.py"
  = Return (Some (S754_finite false 5629499534213120 (-46)))
  ∧ SFleb (S754_zero false) (S754_finite false 5629499534213120 (-46)) = true
  ∧ SFleb (S754_finite false 5629499534213120 (-46)) PyFloat.hundred = true.
Proof.
  intros self dv.
  destruct (percent_covered_value self "a.py") as (_ & Hval & _).
  specialize (Hval dv). cbv zeta in Hval.
  destruct Hval as [Hret Hrange]; [by_computation|decide_by_computation|].
  destruct Hrange as [Hlo Hhi]; [decide_by_computation|by_computation|].
  split; [exact Hret|]. split; [exact Hlo|exact Hhi].
Defined.

(** C9.  For an entry with no measured line [percent_covered] raises
    [ZeroDivisionError]; it returns [None] exactly when the path has no
    entry; and a generator whose diff touches a path with no measured line
    is such a state. *)
Theorem percent_covered_None_iff_no_entry :
  (∀ self src_path dv,
     BaseReportGenerator._diff_violations self !! src_path = Some dv →
     DiffViolations.measured_lines dv = ∅ →
     BaseReportGenerator.percent_covered self src_path = Raise ZeroDivisionError)
  ∧ (∀ self src_path,
       BaseReportGenerator.percent_covered self src_path = Return None
       ↔ BaseReportGenerator._diff_violations self !! src_path = None)
  ∧ (let self := Examples.generator ["a.py"%string] [6] (Some []) [5; 6; 7] in
     "a.py"%string ∈ DiffReporter.src_paths_changed (BaseReportGenerator._diff self)
     ∧ (∃ dv, BaseReportGenerator._diff_violations self !! "a.py"%string = Some dv
              ∧ DiffViolations.measured_lines dv = ∅)
     ∧ BaseReportGenerator.percent_covered self "a.py" = Raise ZeroDivisionError).
Proof.
  assert (Hraise : ∀ self src_path dv,
     BaseReportGenerator._diff_violations self !! src_path = Some dv →
     DiffViolations.measured_lines dv = ∅ →
     BaseReportGenerator.percent_covered self src_path = Raise ZeroDivisionError).
  { intros self src_path dv Hdv Hempty.
    rewrite (percent_covered_entry _ _ _ Hdv), Hempty. done. }
  split; [exact Hraise|]. split.
  - intros self src_path. split.
    + destruct (BaseReportGenerator._diff_violations self !! src_path) as [dv|] eqn:Hdv;
        [|done].
      rewrite (percent_covered_entry _ _ _ Hdv).
      by destruct (PyFloat.truediv _ _).
    + intros Hnone. unfold BaseReportGenerator.percent_covered. by rewrite Hnone.
  - simpl. split; [by apply list_elem_of_here|].
    assert (BaseReportGenerator._diff_violations
              (Examples.generator ["a.py"%string] [6] (Some []) [5; 6; 7]) !! "a.py"%string
            = Some (entry (Examples.generator ["a.py"%string] [6] (Some []) [5; 6; 7]) "a.py"))
      as Hdv by by_computation.
    split.
    + eexists. split; [exact Hdv|]. by_computation.
    + eapply Hraise; [exact Hdv|]. by_computation.
Qed.

(** C8 at a reporter without measured lines and the changed lines 1, 2, 3. *)
Lemma measured_lines_default_witness :
  let self := Examples.generator ["a.py"%string] [3] None [1; 2; 3] in
  DiffViolations.measured_lines (entry self "a.py") = list_to_set [1; 2; 3].
Proof.
  intros self.
  apply (measured_lines_default self "a.py" (entry self "a.py")).
  by_computation.
Defined.

(** ** Totals *)

Lemma total_num_lines_nonneg self : 0 ≤ BaseReportGenerator.total_num_lines self.
Proof.
  unfold BaseReportGenerator.total_num_lines.
  apply (map_fold_weak_ind (λ r _, 0 ≤ r)); [done|].
  intros _ dv _ r _ Hr. unfold Py.len_set. lia.
Qed.

Lemma total_num_missing_nonneg self : 0 ≤ BaseReportGenerator.total_num_missing self.
Proof.
  unfold BaseReportGenerator.total_num_missing.
  apply (map_fold_weak_ind (λ r _, 0 ≤ r)); [done|].
  intros _ dv _ r _ Hr. unfold Py.len_set. lia.
Qed.

Lemma total_percent_covered_pos self :
  0 < BaseReportGenerator.total_num_lines self →
  BaseReportGenerator.total_percent_covered self
  = PyFloat.to_int
      (PyFloat.mul
         (SFdiv PyFloat.prec PyFloat.emax
            (PyFloat.of_int (BaseReportGenerator.total_num_lines self
                             - BaseReportGenerator.total_num_missing self))
            (PyFloat.of_int (BaseReportGenerator.total_num_lines self)))
         PyFloat.hundred).
Proof.
  intros Hpos. unfold BaseReportGenerator.total_percent_covered.
  rewrite decide_True by lia. unfold PyFloat.truediv.
  by rewrite of_int_nonzero.
Qed.

(** ** missing_lines *)

(** X2.  For every path [missing_lines] is sorted in ascending order
    without repetition and holds exactly the violation lines of the entry
    of the path; it is empty for a path without entry. *)
Theorem missing_lines_sorted self src_path :
  Sorted Z.le (BaseReportGenerator.missing_lines self src_path)
  ∧ NoDup (BaseReportGenerator.missing_lines self src_path)
  ∧ (∀ n, n ∈ BaseReportGenerator.missing_lines self src_path
          ↔ ∃ dv, BaseReportGenerator._diff_violations self !! src_path = Some dv
                  ∧ n ∈ DiffViolations.lines dv)
  ∧ (BaseReportGenerator._diff_violations self !! src_path = None →
     BaseReportGenerator.missing_lines self src_path = []).
Proof.
  unfold BaseReportGenerator.missing_lines.
  destruct (BaseReportGenerator._diff_violations self !! src_path) as [dv|].
  - unfold Py.sorted. split; [apply (Sorted_merge_sort Z.le)|].
    split; [rewrite merge_sort_Permutation; apply NoDup_elements|].
    split; [|done]. intros n. rewrite merge_sort_Permutation, elem_of_elements.
    split; [by eexists|]. by intros (dv' & [= <-] & Hn).
  - split; [constructor|]. split; [constructor|]. split; [|done].
    intros n. split; [by intros ?%elem_of_nil|]. by intros (dv & [=] & _).
Qed.

(** ** A source file that cannot be read *)

(** X3.  When the source file of the path is absent, [code_and_context]
    and [classify] raise the error of [open]. *)
Theorem classify_unreadable_file fs src missing diff :
  fs !! src = None →
  Hunker.code_and_context fs (Hunker.init src missing diff) = Raise IOError
  ∧ Hunker.classify fs (Hunker.init src missing diff) = Raise IOError.
Proof.
  intros Hfs. unfold Hunker.classify, Hunker.code_and_context, Hunker.readlines.
  simpl. by rewrite Hfs.
Qed.

(** X3 at an empty file system. *)
Lemma classify_unreadable_file_witness :
  Hunker.code_and_context ∅
    (Hunker.init "a.py" [3]
       {| DiffReporter.name := "HEAD"; DiffReporter.src_paths_changed := ["a.py"%string];
          DiffReporter.lines_changed := λ _, [3] |})
  = Raise IOError
  ∧ Hunker.classify ∅
      (Hunker.init "a.py" [3]
         {| DiffReporter.name := "HEAD"; DiffReporter.src_paths_changed := ["a.py"%string];
            DiffReporter.lines_changed := λ _, [3] |})
    = Raise IOError.
Proof. apply classify_unreadable_file. reflexivity. Defined.

(** * Further properties *)

(** ** The number of hunks *)

Lemma filter_nil_iff {A} (P : A → Prop) `{∀ x, Decision (P x)} (l : list A) :
  filter P l = [] ↔ ∀ x, x ∈ l → ¬ P x.
Proof.
  induction l as [|x l IH]; simpl.
  - split; [|done]. by intros _ x ?%elem_of_nil.
  - rewrite filter_cons. case_decide as HP.
    + split; [done|]. intros Hall. exfalso. apply (Hall x); [apply list_elem_of_here|done].
    + rewrite IH. split.
      * intros Hall y [->|Hy]%elem_of_cons; auto.
      * intros Hall y Hy. apply Hall. by apply list_elem_of_further.
Qed.

Lemma hunkify_loop_length c rest : ∀ prev hunks cur,
  length (Hunker.hunkify_loop c prev rest hunks cur)
  = (length hunks + length (far_pairs (2 * c + 2) (prev :: rest)))%nat.
Proof.
  induction rest as [|b rest IH]; intros prev hunks cur; simpl.
  - unfold far_pairs. simpl. lia.
  - unfold far_pairs in *. cbn [tail zip zip_with]. rewrite filter_cons. simpl.
    case_decide; rewrite IH.
    + rewrite decide_False by lia. done.
    + rewrite decide_True by lia. rewrite length_app. simpl. lia.
Qed.

Lemma code_and_context_length fs self content :
  fs !! Hunker.src_path self = Some content →
  ∃ windows, Hunker.code_and_context fs self = Return windows
             ∧ Forall2 (λ hunk window, Hunker.pad_hunk self content hunk = Return window)
                 (Hunker.hunkify self) windows.
Proof.
  intros Hfs. unfold Hunker.code_and_context, Hunker.readlines. rewrite Hfs. simpl.
  destruct (for_each_is_Return (Hunker.pad_hunk self content) (Hunker.hunkify self))
    as [windows Hw].
  { eapply Forall_impl; [apply hunkify_nonempty|]. simpl. intros hunk Hne.
    destruct (pad_hunk_Return self content hunk Hne) as (a & n & stop & start & ->).
    by eexists. }
  exists windows. split; [done|]. by apply for_each_Return.
Qed.

(** X4.  [hunkify] returns as many hunks as the missing lines have
    consecutive pairs 6 or more apart.  It returns no hunk exactly when every
    missing line is less than 6 after the one before it: for no line, for
    one line and for any single cluster of lines.  Over a file that can be
    read, [classify] returns that same number of hunks. *)
Theorem hunkify_one_hunk_per_gap src missing diff :
  let self := Hunker.init src missing diff in
  let gaps := filter (λ p, 6 ≤ p.2 - p.1) (zip missing (tail missing)) in
  length (Hunker.hunkify self) = length gaps
  ∧ (Hunker.hunkify self = []
     ↔ ∀ i a b, missing !! i = Some a → missing !! S i = Some b → b - a < 6)
  ∧ (∀ fs content, fs !! src = Some content →
       ∃ hunks, Hunker.classify fs self = Return hunks ∧ length hunks = length gaps).
Proof.
  intros self gaps.
  assert (Hlen : length (Hunker.hunkify self) = length gaps).
  { unfold Hunker.hunkify, self, gaps; simpl. destruct missing as [|a rest]; [done|].
    rewrite hunkify_loop_length. done. }
  split; [done|]. split.
  - rewrite <- length_zero_iff_nil, Hlen, length_zero_iff_nil. unfold gaps.
    rewrite filter_nil_iff. split.
    + intros Hall i a b Ha Hb.
      assert ((a, b) ∈ zip missing (tail missing)) as Hin.
      { apply list_elem_of_lookup. exists i. apply lookup_zip_Some.
        by rewrite lookup_tail. }
      specialize (Hall _ Hin). simpl in Hall. lia.
    + intros Hall [a b] [i Hi]%list_elem_of_lookup.
      apply lookup_zip_Some in Hi as [Ha Hb]. rewrite lookup_tail in Hb. simpl in *.
      specialize (Hall i a b Ha Hb). lia.
  - intros fs content Hfs.
    destruct (code_and_context_length fs self content Hfs) as (windows & Hw & Hall).
    rewrite classify_fmap, Hw. simpl. eexists. split; [done|].
    rewrite length_fmap, <- Hlen. symmetry. by eapply Forall2_length.
Qed.

(** ** The runs of missing lines *)

Lemma close_run_snoc g l x y :
  close_run g l → last l = Some x → y - x < g → close_run g (l ++ [y]).
Proof.
  intros Hl Hlast Hxy i a b Ha Hb.
  assert (S i < length (l ++ [y]))%nat as Hlt by (by eapply lookup_lt_Some).
  rewrite length_app in Hlt. simpl in Hlt.
  rewrite lookup_app_l in Ha by lia.
  destruct (decide (S i < length l)%nat) as [Hin|Hout].
  - rewrite lookup_app_l in Hb by lia. by eapply Hl.
  - assert (S i = length l) as Hi by lia.
    rewrite Hi, list_lookup_middle in Hb by done. injection Hb as <-.
    rewrite last_lookup in Hlast. rewrite <- Hi in Hlast. simpl in Hlast.
    congruence.
Qed.

Lemma close_run_singleton g x : close_run g [x].
Proof. intros [|i] a b Ha Hb; simpl in *; done. Qed.

Lemma separated_cons g r rs :
  (∀ r2, head rs = Some r2 → ∃ x y, last r = Some x ∧ head r2 = Some y ∧ g ≤ y - x) →
  separated g rs → separated g (r :: rs).
Proof.
  intros Hhead Hsep [|k] r1 r2 H1 H2; simpl in *.
  - injection H1 as <-. apply Hhead. by rewrite head_lookup.
  - by eapply Hsep.
Qed.

Lemma scan_runs c rest : ∀ prev cur,
  last cur = Some prev → close_run (2 * c + 2) cur →
  Forall (λ run, run ≠ [] ∧ close_run (2 * c + 2) run) (Spec.scan c prev rest cur)
  ∧ separated (2 * c + 2) (Spec.scan c prev rest cur)
  ∧ ∃ r0, head (Spec.scan c prev rest cur) = Some r0 ∧ head r0 = head cur.
Proof.
  induction rest as [|b rest IH]; intros prev cur Hlast Hclose; simpl.
  - split; [|split].
    + constructor; [|done]. split; [|done]. by intros ->.
    + by intros [|k] r1 r2 H1 H2.
    + by eexists.
  - assert (cur ≠ []) as Hne by (by intros ->).
    case_decide as Hgap.
    + destruct (IH b (cur ++ [b])) as (Hall & Hsep & r0 & Hr0 & Hhead).
      { by rewrite last_snoc. }
      { by eapply close_run_snoc. }
      split; [done|]. split; [done|]. exists r0. split; [done|].
      rewrite Hhead. by destruct cur.
    + destruct (IH b [b]) as (Hall & Hsep & r0 & Hr0 & Hhead).
      { done. }
      { apply close_run_singleton. }
      split; [|split].
      * by constructor.
      * apply separated_cons; [|done]. intros r2 Hr2.
        assert (r2 = r0) as -> by congruence.
        exists prev, b. split; [done|]. split; [done|]. lia.
      * by eexists.
Qed.

(** X5.  For a non-empty list of missing lines, the hunks that [hunkify]
    returns, followed by the hunk it is still building when it returns, cut
    the list into runs: concatenated they give the list back, each run is
    non-empty with consecutive lines less than 6 apart, and each run starts
    6 or more after the last line of the run before it. *)
Theorem hunkify_returns_all_runs_but_last src diff a rest :
  let self := Hunker.init src (a :: rest) diff in
  let runs := Hunker.hunkify self ++ [Hunker.pending_hunk self] in
  concat runs = a :: rest
  ∧ Forall (λ run,
      run ≠ [] ∧ ∀ i x y, run !! i = Some x → run !! S i = Some y → y - x < 6) runs
  ∧ (∀ k r1 r2, runs !! k = Some r1 → runs !! S k = Some r2 →
       ∃ x y, last r1 = Some x ∧ head r2 = Some y ∧ 6 ≤ y - x).
Proof.
  intros self runs.
  assert (runs = Spec.scan 2 a rest [a]) as ->.
  { unfold runs, Hunker.hunkify, Hunker.pending_hunk; simpl.
    by rewrite <- hunkify_loop_scan. }
  split; [by rewrite concat_scan|].
  destruct (scan_runs 2 rest a [a]) as (Hall & Hsep & _); [done|apply close_run_singleton|].
  split; [exact Hall|exact Hsep].
Qed.

(** ** Windows at the start of the file *)

(** X6.  For a hunk whose first line is below 2, the window is numbered
    from 0, over min(last + 2, length of the file) lines, and the number [n]
    carries the text of line [n + 1] of the file. *)
Theorem pad_hunk_before_line_two src missing diff content hunk first final :
  head hunk = Some first → last hunk = Some final → first < 2 →
  ∃ window,
    Hunker.pad_hunk (Hunker.init src missing diff) content hunk = Return window
    ∧ window.*1 = seqZ 0 (Z.min (final + 2) (Z.of_nat (length content)))
    ∧ ∀ n code, (n, code) ∈ window → content !! Z.to_nat n = Some code.
Proof.
  intros Hfirst Hfinal H2.
  unfold Hunker.pad_hunk, Py.first, Py.final. rewrite Hfinal.
  destruct hunk as [|x hunk]; [done|]. injection Hfirst as ->.
  cbn [mbind result_bind Hunker.lines_of_context Hunker.init].
  rewrite decide_True by lia.
  eexists. split; [done|].
  unfold Py.range, Py.slice. cbn [from_option].
  rewrite Z.sub_0_r, drop_0.
  set (len := Z.of_nat (length content)).
  split.
  - rewrite fst_zip_seqZ.
    rewrite length_zip_with, length_seqZ, length_take. fold len.
    unfold Py.slice_bound. case_decide.
    + rewrite !seqZ_nil by lia. done.
    + f_equal. subst len. lia.
  - intros n code [i Hi]%list_elem_of_lookup.
    apply lookup_zip_with_Some in Hi as (n' & code' & [= <- <-] & Hn & Hcode).
    apply lookup_seqZ in Hn as [-> Hn].
    apply lookup_take_Some in Hcode as [Hcode Hi].
    rewrite <- Hcode. f_equal. lia.
Qed.

(** X6 at the hunk [1, 2] over a file of eight lines. *)
Lemma pad_hunk_before_line_two_witness :
  ∃ window,
    Hunker.pad_hunk
      (Hunker.init "a.py" [1; 2; 30]
         {| DiffReporter.name := "HEAD"; DiffReporter.src_paths_changed := ["a.py"%string];
            DiffReporter.lines_changed := λ _, [1; 2] |})
      ["a"; "b"; "c"; "d"; "e"; "f"; "g"; "h"]%string [1; 2]
    = Return window
    ∧ window.*1 = seqZ 0 (Z.min (2 + 2) 8)
    ∧ ∀ n code, (n, code) ∈ window →
        (["a"; "b"; "c"; "d"; "e"; "f"; "g"; "h"]%string : list string)
          !! Z.to_nat n = Some code.
Proof.
  apply (pad_hunk_before_line_two "a.py" [1; 2; 30] _
           ["a"; "b"; "c"; "d"; "e"; "f"; "g"; "h"]%string [1; 2] 1 2);
    by_computation.
Defined.

(** X7.  For a hunk whose first line is 2, the window is empty when the
    file has more than last + 2 lines; otherwise it is the number 0 paired
    with the last line of the file, or empty for an empty file. *)
Theorem pad_hunk_at_line_two src missing diff content hunk final :
  head hunk = Some 2 → last hunk = Some final → 2 ≤ final →
  Hunker.pad_hunk (Hunker.init src missing diff) content hunk
  = Return (if decide (final + 2 < Z.of_nat (length content)) then []
            else match last content with
                 | Some code => [(0, code)]
                 | None => []
                 end).
Proof.
  intros Hfirst Hfinal H2.
  unfold Hunker.pad_hunk, Py.first, Py.final. rewrite Hfinal.
  destruct hunk as [|x hunk]; [done|]. injection Hfirst as ->.
  cbn [mbind result_bind Hunker.lines_of_context Hunker.init].
  rewrite decide_False by lia. f_equal.
  unfold Py.range, Py.slice. cbn [from_option].
  change (2 - 2 - 1) with (-1). change (2 - 2) with 0.
  set (len := Z.of_nat (length content)).
  unfold Py.slice_bound.
  destruct (decide (-1 < 0)) as [_|?]; [|lia].
  destruct (decide (final + 2 < 0)) as [?|_]; [lia|].
  case_decide as Hlen.
  - replace (Z.to_nat _) with 0%nat by lia. simpl. by destruct (seqZ _ _).
  - destruct (last content) as [code|] eqn:Hlast.
    + rewrite last_lookup in Hlast.
      assert (0 < len) as Hpos.
      { apply lookup_lt_Some in Hlast. subst len. destruct content; simpl in *; lia. }
      replace (Z.to_nat (Z.min (final + 2) len - Z.max 0 (-1 + len))) with 1%nat by lia.
      replace (Z.to_nat (Z.max 0 (-1 + len))) with (pred (length content)) by lia.
      rewrite (drop_S _ code) by done.
      rewrite seqZ_cons by lia. simpl. rewrite take_0. by destruct (seqZ _ _).
    + apply last_None in Hlast as ->. rewrite drop_nil, take_nil. by destruct (seqZ _ _).
Qed.

(** X7 at the hunk [2, 3] over a file of four lines. *)
Lemma pad_hunk_at_line_two_witness :
  Hunker.pad_hunk
    (Hunker.init "a.py" [2; 3; 30]
       {| DiffReporter.name := "HEAD"; DiffReporter.src_paths_changed := ["a.py"%string];
          DiffReporter.lines_changed := λ _, [2; 3] |})
    ["a"; "b"; "c"; "d"]%string [2; 3]
  = Return [(0, "d"%string)].
Proof.
  apply (pad_hunk_at_line_two "a.py" [2; 3; 30] _ ["a"; "b"; "c"; "d"]%string [2; 3] 3);
    by_computation.
Defined.

(** ** Line numbers across hunks *)

Lemma StronglySorted_seqZ a n : StronglySorted Z.lt (seqZ a n).
Proof.
  destruct (decide (0 < n)) as [Hn|Hn]; [|rewrite seqZ_nil by lia; constructor].
  replace n with (Z.of_nat (Z.to_nat n)) by lia.
  generalize (Z.to_nat n). clear. intros k. revert a.
  induction k as [|k IH]; intros a; [constructor|].
  rewrite seqZ_cons by lia. constructor.
  - replace (Z.pred (Z.of_nat (S k))) with (Z.of_nat k) by lia. apply IH.
  - apply Forall_forall. intros x Hx%elem_of_seqZ. lia.
Qed.

Lemma scan_ascending c rest : ∀ prev cur lo,
  last cur = Some prev → Forall (λ x, lo ≤ x ≤ prev) cur →
  Sorted Z.le (prev :: rest) →
  ascending_runs (2 * c + 2) lo (Spec.scan c prev rest cur).
Proof.
  induction rest as [|b rest IH]; intros prev cur lo Hlast Hcur Hsorted; simpl.
  - by exists prev.
  - apply Sorted_inv in Hsorted as [Hsorted Hb%HdRel_inv].
    assert (lo ≤ prev) as Hlo.
    { apply last_Some_elem_of in Hlast.
      rewrite Forall_forall in Hcur. specialize (Hcur _ Hlast). lia. }
    case_decide as Hgap.
    + apply IH; [by rewrite last_snoc| |done].
      apply Forall_app. split.
      * eapply Forall_impl; [exact Hcur|]. simpl. intros x ?. lia.
      * constructor; [lia|constructor].
    + exists prev. split; [done|]. split; [done|].
      apply IH; [done| |done]. constructor; [lia|constructor].
Qed.

Lemma ascending_runs_elements g runs : ∀ lo,
  0 ≤ g → ascending_runs g lo runs → Forall (λ x, lo ≤ x) (concat runs).
Proof.
  induction runs as [|run runs IH]; intros lo Hg; simpl; [constructor|].
  intros (final & Hlast & Hrun & Hrest). apply Forall_app. split.
  - eapply Forall_impl; [exact Hrun|]. simpl. intros x ?. lia.
  - assert (lo ≤ final) as Hlo.
    { apply last_Some_elem_of in Hlast.
      rewrite Forall_forall in Hrun. specialize (Hrun _ Hlast). lia. }
    eapply Forall_impl; [by apply IH|]. simpl. intros x ?. lia.
Qed.

(** The line numbers of the window of a run between [lo] and [final]. *)
Lemma pad_hunk_bounds src missing diff content run lo final window :
  last run = Some final → Forall (λ x, lo ≤ x ≤ final) run →
  Hunker.pad_hunk (Hunker.init src missing diff) content run = Return window →
  StronglySorted Z.lt window.*1
  ∧ Forall (λ n, 0 ≤ n ∧ lo - 2 ≤ n ∧ n ≤ final + 2) window.*1.
Proof.
  intros Hlast Hrun. unfold Hunker.pad_hunk, Py.first, Py.final. rewrite Hlast.
  destruct run as [|first run]; [done|].
  apply Forall_cons in Hrun as [Hfirst _].
  cbn [mbind result_bind Hunker.lines_of_context Hunker.init mret result_ret].
  unfold Py.range.
  case_decide; intros [= <-]; rewrite fst_zip_seqZ;
    (split; [apply StronglySorted_seqZ|]);
    apply Forall_forall; intros n Hn%elem_of_seqZ;
    rewrite length_zip_with, length_seqZ in Hn; lia.
Qed.

Lemma windows_ascending src missing diff content runs windows : ∀ lo,
  ascending_runs 6 lo runs →
  Forall2 (λ run window,
             Hunker.pad_hunk (Hunker.init src missing diff) content run = Return window)
          runs windows →
  StronglySorted Z.lt (concat windows).*1
  ∧ Forall (λ n, 0 ≤ n ∧ lo - 2 ≤ n) (concat windows).*1.
Proof.
  intros lo Hruns Hall. revert lo Hruns.
  induction Hall as [|run window runs windows Hw _ IH]; intros lo Hruns; simpl.
  - split; constructor.
  - destruct Hruns as (final & Hlast & Hrun & Hrest).
    destruct (pad_hunk_bounds _ _ _ _ _ _ _ _ Hlast Hrun Hw) as [Hsorted Hbounds].
    destruct (IH _ Hrest) as [IHsorted IHbounds].
    assert (lo ≤ final) as Hlo.
    { apply last_Some_elem_of in Hlast.
      rewrite Forall_forall in Hrun. specialize (Hrun _ Hlast). lia. }
    rewrite fmap_app. split.
    + apply StronglySorted_app. split; [|done].
      intros x1 x2 H1 H2.
      rewrite Forall_forall in Hbounds, IHbounds.
      specialize (Hbounds _ H1). specialize (IHbounds _ H2). lia.
    + apply Forall_app. split.
      * eapply Forall_impl; [exact Hbounds|]. simpl. intros n ?. lia.
      * eapply Forall_impl; [exact IHbounds|]. simpl. intros n ?. lia.
Qed.

Lemma windows_below_rest src missing diff content runs windows pending : ∀ lo,
  ascending_runs 6 lo (runs ++ [pending]) →
  Forall2 (λ run window,
             Hunker.pad_hunk (Hunker.init src missing diff) content run = Return window)
          runs windows →
  ∀ n x, n ∈ (concat windows).*1 → x ∈ pending → n + 4 ≤ x.
Proof.
  intros lo Hruns Hall. revert lo Hruns.
  induction Hall as [|run window runs windows Hw _ IH]; intros lo Hruns n x Hn Hx;
    simpl in *.
  - by apply elem_of_nil in Hn.
  - destruct Hruns as (final & Hlast & Hrun & Hrest).
    rewrite fmap_app in Hn. apply elem_of_app in Hn as [Hn|Hn]; [|by eapply IH].
    destruct (pad_hunk_bounds _ _ _ _ _ _ _ _ Hlast Hrun Hw) as [_ Hbounds].
    rewrite Forall_forall in Hbounds. specialize (Hbounds _ Hn).
    apply ascending_runs_elements in Hrest; [|lia].
    rewrite Forall_forall in Hrest.
    assert (final + 6 ≤ x); [|lia].
    apply Hrest. rewrite concat_app. apply elem_of_app. right. simpl.
    by rewrite app_nil_r.
Qed.

Lemma line_num_classified self (windows : list (list (Z * string))) :
  Hunker.line_num
    <$> concat (fmap (M:=list) (fmap (M:=list) (Hunker.classify_line self)) windows)
  = (concat windows).*1.
Proof.
  induction windows as [|window windows IH]; [done|].
  rewrite fmap_cons. cbn [concat]. rewrite !fmap_app, IH. f_equal.
  rewrite <- list_fmap_compose. apply list_fmap_ext. intros _ p _. simpl.
  unfold Hunker.classify_line. by repeat case_match.
Qed.

(** X8.  For missing lines in ascending order and a file that can be read,
    the line numbers of the lines that [classify] returns, read through its
    hunks in order, strictly increase, so no line number is given twice; and
    no line of the hunk that [hunkify] leaves out is among them, not even as
    context. *)
Theorem classify_line_numbers_ascending fs src missing diff content :
  Sorted Z.le missing → fs !! src = Some content →
  let self := Hunker.init src missing diff in
  ∃ hunks,
    Hunker.classify fs self = Return hunks
    ∧ StronglySorted Z.lt (Hunker.line_num <$> concat hunks)
    ∧ ∀ n, n ∈ Hunker.pending_hunk self → n ∉ Hunker.line_num <$> concat hunks.
Proof.
  intros Hsorted Hfs self.
  destruct (code_and_context_length fs self content Hfs) as (windows & Hw & Hall).
  exists (fmap (M:=list) (fmap (M:=list) (Hunker.classify_line self)) windows).
  split; [by rewrite classify_fmap, Hw|].
  rewrite line_num_classified.
  destruct missing as [|a rest].
  { inversion Hall; subst. split; [constructor|]. by intros n ?%elem_of_nil. }
  assert (ascending_runs 6 a (Hunker.hunkify self ++ [Hunker.pending_hunk self]))
    as Hruns.
  { unfold Hunker.hunkify, Hunker.pending_hunk, self; simpl.
    rewrite <- (hunkify_loop_scan 2 rest a [] [a]). simpl.
    apply (scan_ascending 2); [done| |done]. constructor; [lia|constructor]. }
  split.
  - assert (ascending_runs 6 a (Hunker.hunkify self)) as Hruns'.
    { clear -Hruns. revert Hruns. generalize a. generalize (Hunker.hunkify self).
      induction l as [|r l IH]; intros lo; simpl; [done|].
      intros (final & ? & ? & ?). exists final. eauto. }
    by destruct (windows_ascending _ _ _ _ _ _ _ Hruns' Hall).
  - intros n Hn Hin.
    pose proof (windows_below_rest _ _ _ _ _ _ _ _ Hruns Hall n n Hin Hn). lia.
Qed.

(** X8 at the missing lines 4, 5, 11, 12 of a file of twelve lines. *)
Lemma classify_line_numbers_ascending_witness :
  ∃ hunks,
    Hunker.classify
      {[ "a.py"%string := ["a"; "b"; "c"; "d"; "e"; "f"; "g"; "h"; "i"; "j"; "k"; "l"]%string ]}
      (Hunker.init "a.py" [4; 5; 11; 12]
         {| DiffReporter.name := "HEAD"; DiffReporter.src_paths_changed := ["a.py"%string];
            DiffReporter.lines_changed := λ _, [3; 4; 5; 11; 12] |})
    = Return hunks
    ∧ StronglySorted Z.lt (Hunker.line_num <$> concat hunks)
    ∧ ∀ n, n ∈ Hunker.pending_hunk
               (Hunker.init "a.py" [4; 5; 11; 12]
                  {| DiffReporter.name := "HEAD";
                     DiffReporter.src_paths_changed := ["a.py"%string];
                     DiffReporter.lines_changed := λ _, [3; 4; 5; 11; 12] |})
           → n ∉ Hunker.line_num <$> concat hunks.
Proof.
  apply (classify_line_numbers_ascending _ _ _ _
           ["a"; "b"; "c"; "d"; "e"; "f"; "g"; "h"; "i"; "j"; "k"; "l"]%string).
  - repeat constructor; by_computation.
  - reflexivity.
Defined.

(** ** Violations in the classified hunks *)

Lemma hunkify_concat self :
  concat (Hunker.hunkify self) ++ Hunker.pending_hunk self = Hunker.line_numbers self.
Proof.
  unfold Hunker.hunkify, Hunker.pending_hunk.
  destruct (Hunker.line_numbers self) as [|a rest]; [done|].
  transitivity (concat (Spec.scan (Hunker.lines_of_context self) a rest [a]));
    [|by rewrite concat_scan].
  pose proof (hunkify_loop_scan (Hunker.lines_of_context self) rest a [] [a]) as Hscan.
  simpl in Hscan. rewrite Hscan, concat_app. simpl. by rewrite app_nil_r.
Qed.

Lemma elem_of_concat {A} (x : A) (ls : list (list A)) l :
  x ∈ l → l ∈ ls → x ∈ concat ls.
Proof.
  intros Hx. induction ls as [|l' ls IH]; simpl; [by intros ?%elem_of_nil|].
  intros [->|Hin]%elem_of_cons; apply elem_of_app; auto.
Qed.

Lemma StronglySorted_concat_elem {A} (R : relation A) (ls : list (list A)) l :
  StronglySorted R (concat ls) → l ∈ ls → StronglySorted R l.
Proof.
  induction ls as [|l' ls IH]; simpl; [by intros _ ?%elem_of_nil|].
  intros (_ & Hl' & Hls)%StronglySorted_app [->|Hin]%elem_of_cons; auto.
Qed.

Lemma hunkify_hunk_bounds self hunk first final :
  Sorted Z.le (Hunker.line_numbers self) → hunk ∈ Hunker.hunkify self →
  head hunk = Some first → last hunk = Some final →
  Forall (λ x, x ∈ Hunker.line_numbers self ∧ first ≤ x ≤ final) hunk.
Proof.
  intros Hsorted Hin Hfirst Hfinal.
  apply (Sorted_StronglySorted _) in Hsorted.
  rewrite <- hunkify_concat in Hsorted |- *.
  apply StronglySorted_app in Hsorted as (_ & Hsorted & _).
  pose proof (StronglySorted_concat_elem _ _ _ Hsorted Hin) as Hhunk.
  apply Forall_forall. intros x Hx. split.
  - apply elem_of_app. left. by eapply elem_of_concat.
  - split.
    + destruct hunk as [|y hunk]; [done|]. injection Hfirst as ->.
      apply StronglySorted_inv in Hhunk as [_ Hall].
      apply elem_of_cons in Hx as [->|Hx]; [lia|].
      rewrite Forall_forall in Hall. by apply Hall.
    + apply last_Some in Hfinal as [hunk' ->].
      apply StronglySorted_app in Hhunk as (Hall & _ & _).
      apply elem_of_app in Hx as [Hx|Hx].
      * apply Hall; [done|apply list_elem_of_here].
      * apply list_elem_of_singleton in Hx as ->. lia.
Qed.

Lemma pad_hunk_interior_elem src missing diff content hunk first final n code :
  head hunk = Some first → last hunk = Some final → 3 ≤ first →
  first - 2 ≤ n ≤ final + 2 → content !! Z.to_nat (n - 1) = Some code →
  ∃ window,
    Hunker.pad_hunk (Hunker.init src missing diff) content hunk = Return window
    ∧ (n, code) ∈ window.
Proof.
  intros Hfirst Hfinal H3 Hn Hcode.
  unfold Hunker.pad_hunk, Py.first, Py.final. rewrite Hfinal.
  destruct hunk as [|x hunk]; [done|]. injection Hfirst as ->.
  cbn [mbind result_bind Hunker.lines_of_context Hunker.init].
  rewrite decide_False by lia.
  eexists. split; [done|].
  unfold Py.range, Py.slice. cbn [from_option].
  pose proof (lookup_lt_Some _ _ _ Hcode) as Hlt.
  set (len := Z.of_nat (length content)) in *.
  assert (Py.slice_bound len (first - 2 - 1) = first - 3) as ->.
  { unfold Py.slice_bound. rewrite decide_False by lia. lia. }
  assert (Py.slice_bound len (final + 2) = Z.min (final + 2) len) as ->.
  { unfold Py.slice_bound. by rewrite decide_False by lia. }
  apply list_elem_of_lookup. exists (Z.to_nat (n - (first - 2))).
  apply lookup_zip_with_Some. exists n, code. split; [done|]. split.
  - replace n with (first - 2 + Z.of_nat (Z.to_nat (n - (first - 2)))) at 2 by lia.
    apply lookup_seqZ. split; [done|]. lia.
  - apply lookup_take_Some. split; [|lia].
    rewrite lookup_drop. rewrite <- Hcode. f_equal. lia.
Qed.

(** X9.  For missing lines in ascending order and a file that can be read,
    a hunk of [hunkify] whose first line is 3 or greater has a classified
    hunk in the result of [classify] where every line of the hunk that the
    file has appears with its own text and the tag VIOLATION, and every line
    from first - 2 to last + 2 that the file has appears with its own
    text. *)
Theorem classify_shows_violations fs src missing diff content hunk first final :
  Sorted Z.le missing → fs !! src = Some content →
  let self := Hunker.init src missing diff in
  hunk ∈ Hunker.hunkify self →
  head hunk = Some first → last hunk = Some final → 3 ≤ first →
  ∃ hunks classified,
    Hunker.classify fs self = Return hunks
    ∧ classified ∈ hunks
    ∧ (∀ n code, n ∈ hunk → content !! Z.to_nat (n - 1) = Some code →
         Hunker.Line n code "VIOLATION" ∈ classified)
    ∧ (∀ n code, first - 2 ≤ n ≤ final + 2 →
         content !! Z.to_nat (n - 1) = Some code →
         ∃ tag, Hunker.Line n code tag ∈ classified).
Proof.
  intros Hsorted Hfs self Hin Hfirst Hfinal H3.
  destruct (code_and_context_length fs self content Hfs) as (windows & Hw & Hall).
  apply list_elem_of_lookup in Hin as [k Hk].
  destruct (Forall2_lookup_l _ _ _ _ _ Hall Hk) as (window & Hwindow & Hpad).
  exists (fmap (M:=list) (fmap (M:=list) (Hunker.classify_line self)) windows),
         (Hunker.classify_line self <$> window).
  split; [by rewrite classify_fmap, Hw|]. split.
  { apply list_elem_of_fmap. exists window. split; [done|].
    apply list_elem_of_lookup. eauto. }
  assert (Hwin : ∀ n code, first - 2 ≤ n ≤ final + 2 →
            content !! Z.to_nat (n - 1) = Some code → (n, code) ∈ window).
  { intros n code Hn Hcode.
    destruct (pad_hunk_interior_elem src missing diff content hunk first final n code)
      as (window' & Hpad' & Helem); try done.
    fold self in Hpad'. congruence. }
  pose proof (hunkify_hunk_bounds self hunk first final Hsorted
                ltac:(apply list_elem_of_lookup; eauto) Hfirst Hfinal) as Hbounds.
  rewrite Forall_forall in Hbounds.
  split.
  - intros n code Hn Hcode. destruct (Hbounds n Hn) as [Hmiss Hrange].
    apply list_elem_of_fmap. exists (n, code). split; [|apply Hwin; [lia|done]].
    unfold Hunker.classify_line, Py.contains. simpl.
    by rewrite bool_decide_eq_true_2.
  - intros n code Hn Hcode.
    exists (Hunker.line_type (Hunker.classify_line self (n, code))).
    apply list_elem_of_fmap. exists (n, code). split; [|by apply Hwin].
    unfold Hunker.classify_line. simpl. by repeat case_match.
Qed.

(** X9 at the missing lines 4, 5, 30 of a file of eight lines. *)
Lemma classify_shows_violations_witness :
  ∃ hunks classified,
    Hunker.classify
      {[ "a.py"%string := ["a"; "b"; "c"; "d"; "e"; "f"; "g"; "h"]%string ]}
      (Hunker.init "a.py" [4; 5; 30]
         {| DiffReporter.name := "HEAD"; DiffReporter.src_paths_changed := ["a.py"%string];
            DiffReporter.lines_changed := λ _, [3; 4; 5] |})
    = Return hunks
    ∧ classified ∈ hunks
    ∧ (∀ n code, n ∈ [4; 5] →
         (["a"; "b"; "c"; "d"; "e"; "f"; "g"; "h"]%string : list string)
           !! Z.to_nat (n - 1) = Some code →
         Hunker.Line n code "VIOLATION" ∈ classified)
    ∧ (∀ n code, 4 - 2 ≤ n ≤ 5 + 2 →
         (["a"; "b"; "c"; "d"; "e"; "f"; "g"; "h"]%string : list string)
           !! Z.to_nat (n - 1) = Some code →
         ∃ tag, Hunker.Line n code tag ∈ classified).
Proof.
  apply (classify_shows_violations
           {[ "a.py"%string := ["a"; "b"; "c"; "d"; "e"; "f"; "g"; "h"]%string ]}
           "a.py" [4; 5; 30] _ _ [4; 5] 4 5).
  - repeat constructor; by_computation.
  - reflexivity.
  - decide_by_computation.
  - reflexivity.
  - reflexivity.
  - by_computation.
Defined.

(** ** The queries in terms of the reporters *)

Lemma elem_of_src_paths self src_path :
  src_path ∈ BaseReportGenerator.src_paths self
  ↔ src_path ∈ DiffReporter.src_paths_changed (BaseReportGenerator._diff self)
    ∧ DiffViolations.measured_lines (entry self src_path) ≠ ∅.
Proof.
  unfold BaseReportGenerator.src_paths. rewrite elem_of_dom. unfold is_Some.
  setoid_rewrite map_lookup_filter_Some. simpl.
  setoid_rewrite len_set_pos. setoid_rewrite lookup_diff_violations_Some.
  split.
  - by intros (dv & [Hin ->] & Hne).
  - intros [Hin Hne]. by exists (entry self src_path).
Qed.

Lemma gset_nonempty_elem (s : gset Z) : s ≠ ∅ ↔ ∃ n, n ∈ s.
Proof.
  split.
  - intros Hne. by apply set_choose_L.
  - intros [n Hn] ->. by apply not_elem_of_empty in Hn.
Qed.

(** X10.  In terms of the two reporters: the keys of [_diff_violations]
    are the paths of the diff; a path is in [src_paths] exactly when it is a
    path of the diff with a changed line that the violation reporter gives
    as measured (any changed line, when it gives [None]); and [n] is in
    [missing_lines] of a path exactly when the path is a path of the diff,
    [n] is a changed line of it and a violation of the path is on line
    [n]. *)
Theorem queries_from_reporters self :
  let paths := DiffReporter.src_paths_changed (BaseReportGenerator._diff self) in
  let changed := DiffReporter.lines_changed (BaseReportGenerator._diff self) in
  let reporter := BaseReportGenerator._violations self in
  dom (BaseReportGenerator._diff_violations self) = list_to_set paths
  ∧ (∀ src_path,
       src_path ∈ BaseReportGenerator.src_paths self
       ↔ src_path ∈ paths
         ∧ ∃ n, n ∈ changed src_path
                ∧ match ViolationReporter.measured_lines reporter src_path with
                  | None => True
                  | Some reported => n ∈ reported
                  end)
  ∧ (∀ src_path n,
       n ∈ BaseReportGenerator.missing_lines self src_path
       ↔ src_path ∈ paths
         ∧ n ∈ changed src_path
         ∧ ∃ v, v ∈ ViolationReporter.violations reporter src_path
                ∧ Violation.line v = n).
Proof.
  intros paths changed reporter. split; [|split].
  - apply set_eq. intros p. rewrite elem_of_dom, elem_of_list_to_set.
    rewrite lookup_diff_violations. fold paths. case_decide; [|split; [by intros []|done]].
    split; [done|by eexists].
  - intros p. rewrite elem_of_src_paths, gset_nonempty_elem. fold paths.
    unfold entry, DiffViolations.init; simpl. fold changed reporter.
    split; intros [Hin [n Hn]]; (split; [done|]); exists n.
    + destruct (ViolationReporter.measured_lines reporter p).
      * apply elem_of_intersection in Hn as [?%elem_of_list_to_set ?%elem_of_list_to_set].
        done.
      * apply elem_of_list_to_set in Hn. done.
    + destruct (ViolationReporter.measured_lines reporter p).
      * apply elem_of_intersection. rewrite !elem_of_list_to_set. tauto.
      * apply elem_of_list_to_set. tauto.
  - intros p n. unfold BaseReportGenerator.missing_lines.
    rewrite lookup_diff_violations. fold paths. case_decide as Hin.
    + unfold Py.sorted. rewrite merge_sort_Permutation, elem_of_elements.
      unfold entry, DiffViolations.init; simpl. fold changed reporter.
      rewrite elem_of_intersection, !elem_of_list_to_set, list_elem_of_fmap.
      split.
      * intros [(v & -> & Hv) Hn]. eauto.
      * intros (_ & Hn & v & Hv & <-). eauto.
    + split; [by intros ?%elem_of_nil|]. by intros [? _].
Qed.

(** ** Quotients of equal lengths and of zero *)

Section binary64_quotients.
Abbreviation fexp := (fexp PyFloat.prec PyFloat.emax).

(** [float(n)] for a positive [n] is a positive finite float or, from
    [2^1024] on, infinity. *)
Lemma of_int_pos_cases n :
  0 < n →
  (∃ m e, PyFloat.of_int n = S754_finite false m e)
  ∨ PyFloat.of_int n = S754_infinity false.
Proof.
  intros Hn. pose proof (of_int_nonzero n Hn) as Hnz.
  destruct n as [|p|p]; [lia| |lia].
  unfold PyFloat.of_int, binary_normalize, binary_round in *.
  change (Z.pos (digits2_pos p)) with (Zdigits2 (Z.pos p)) in *.
  set (d := Zdigits2 (Z.pos p)) in *.
  assert (1 ≤ d) as Hd by (unfold d; simpl; lia).
  pose proof (shl_align_spec p 0 (fexp (d + 0))) as Hal.
  destruct (shl_align p 0 (fexp (d + 0))) as [mz ez]. destruct Hal as [Hez Hmz].
  rewrite fexp_eq in Hez.
  assert (Zdigits2 (Z.pos mz) + ez = d) as Hdz.
  { rewrite Hmz, Zdigits2_mul_pow2 by lia. fold d. lia. }
  destruct (binary_round_aux_cases (Z.pos mz) ez loc_Exact) as [_ Hcases];
    rewrite ?Hdz, ?fexp_eq; try lia.
  rewrite Hcases in Hnz |- *.
  repeat case_decide; repeat case_match; try done; eauto.
Qed.

Lemma div_zero_of_int n :
  0 < n →
  SFdiv PyFloat.prec PyFloat.emax (PyFloat.of_int 0) (PyFloat.of_int n)
  = S754_zero false.
Proof.
  intros Hn. by destruct (of_int_pos_cases n Hn) as [(m & e & ->)| ->].
Qed.

(** A finite float divided by itself is 1. *)
Lemma div_self m e :
  SFdiv PyFloat.prec PyFloat.emax (S754_finite false m e) (S754_finite false m e)
  = S754_finite false (2 ^ 52) (-52).
Proof.
  unfold SFdiv, SFdiv_core_binary.
  replace (Zdigits2 (Z.pos m) + e - (Zdigits2 (Z.pos m) + e)) with 0 by lia.
  replace (e - e) with 0 by lia.
  change (Z.min (fexp 0) 0) with (-53). change (0 - -53) with 53.
  cbv iota beta. rewrite Z.shiftl_mul_pow2 by lia.
  pose proof (Z_div_mod (2 ^ 53 * Z.pos m) (Z.pos m) ltac:(lia)) as Hdiv.
  rewrite (Z.mul_comm (Z.pos m)).
  destruct (Z.div_eucl (2 ^ 53 * Z.pos m) (Z.pos m)) as [q r].
  destruct Hdiv as [Hqr Hr].
  assert (q = 2 ^ 53) as ->.
  { destruct (Z.lt_trichotomy q (2 ^ 53)) as [Hlt|[Heq|Hgt]]; [exfalso|done|exfalso]; nia. }
  assert (r = 0) as -> by lia.
  rewrite new_location_exact. by_computation.
Qed.

Lemma div_of_int_self n :
  0 < n < 2 ^ 63 →
  SFdiv PyFloat.prec PyFloat.emax (PyFloat.of_int n) (PyFloat.of_int n)
  = S754_finite false (2 ^ 52) (-52).
Proof.
  intros Hn. destruct (of_int_le n n) as (m & e & _ & _ & -> & _); [lia|lia|].
  apply div_self.
Qed.

End binary64_quotients.

(** ** Exact rounding of quotients of lengths *)

Section binary64_exact.
Abbreviation fexp := (fexp PyFloat.prec PyFloat.emax).

(** The place of [k / n] among 0, the open lower half, one half and the
    open upper half. *)
Lemma new_location_spec n k :
  0 ≤ k < n →
  new_location n k
  = if decide (k = 0) then loc_Exact else loc_Inexact (2 * k ?= n).
Proof.
  intros Hk. unfold new_location.
  destruct (Z.even n) eqn:Heven;
    unfold new_location_even, new_location_odd;
    (destruct (decide (k = 0)) as [->|Hk0]; [done|]);
    rewrite (proj2 (Z.eqb_neq k 0)) by done; [done|].
  f_equal.
  assert (Z.odd n = true) as Hodd by (by rewrite <- Z.negb_even, Heven).
  apply Z.odd_spec in Hodd as [h Hh].
  destruct (Z.compare_spec (2 * k + 1) n), (Z.compare_spec (2 * k) n); try done; lia.
Qed.

(** Rounding a mantissa of 53 or more digits: the result is a normal float
    whose value is at most one unit in the last place away. *)
Lemma round_normal mx ex lx :
  let K := Zdigits2 mx - 53 in
  0 < mx → 0 ≤ K → -1074 ≤ ex + K → ex + K + 1 ≤ 971 →
  ∃ m e m2 j,
    binary_round_aux PyFloat.prec PyFloat.emax false mx ex lx = S754_finite false m e
    ∧ 2 ^ 52 ≤ Z.pos m < 2 ^ 53
    ∧ e = ex + K + j ∧ 0 ≤ j ≤ 1 ∧ Z.pos m * 2 ^ j = m2
    ∧ mx - 2 ^ K < 2 ^ K * m2 ≤ mx + 2 ^ K
    ∧ (lx = loc_Exact → mx `mod` 2 ^ K = 0 → 2 ^ K * m2 = mx).
Proof.
  intros K Hmx HK Hlo Hhi.
  pose proof (Zdigits2_bounds mx Hmx) as [Hdlo Hdhi].
  set (e1 := fexp (Zdigits2 mx + ex)).
  assert (e1 = ex + K) as He1 by (unfold e1, K; rewrite fexp_eq; lia).
  destruct (binary_round_aux_cases mx ex lx Hmx) as [Hm1lt ->]; [fold e1; lia|].
  fold e1. pose proof (shr_spec mx lx ex (e1 - ex)) as Hshr.
  destruct (shr (shr_record_of_loc mx lx) ex (e1 - ex)) as [mrs e'].
  destruct Hshr as (Hm1 & _ & Hloc); [lia|lia|]. cbn [fst] in *.
  replace (e1 - ex) with K in * by lia.
  set (m1 := shr_m mrs) in *.
  pose proof (round_nearest_even_bounds m1 (loc_of_shr_record mrs)) as Hm2.
  set (m2 := round_nearest_even m1 (loc_of_shr_record mrs)) in *.
  assert (0 < 2 ^ K) as Hpow by (apply Z.pow_pos_nonneg; lia).
  pose proof (Z.div_mod mx (2 ^ K) ltac:(lia)) as Hdm.
  pose proof (Z.mod_pos_bound mx (2 ^ K) Hpow) as Hmod.
  rewrite <- Hm1 in Hdm.
  assert (2 ^ 52 ≤ m1) as Hm1lo.
  { rewrite Hm1. apply Z.div_le_lower_bound; [done|].
    rewrite <- Z.pow_add_r by lia. replace (K + 52) with (Zdigits2 mx - 1) by (unfold K; lia).
    done. }
  assert (m1 < 2 ^ 53) as Hm1hi.
  { rewrite Hm1. apply Z.div_lt_upper_bound; [done|].
    rewrite <- Z.pow_add_r by lia. replace (K + 53) with (Zdigits2 mx) by (unfold K; lia).
    done. }
  assert (Hexact : lx = loc_Exact → mx `mod` 2 ^ K = 0 → 2 ^ K * m2 = mx).
  { intros Hlx Hz. unfold m2. rewrite Hloc by done. simpl. lia. }
  assert (mx - 2 ^ K < 2 ^ K * m2 ≤ mx + 2 ^ K) as Hulp.
  { assert (2 ^ K * m1 ≤ 2 ^ K * m2) by (apply Z.mul_le_mono_nonneg_l; lia).
    assert (2 ^ K * m2 ≤ 2 ^ K * (m1 + 1)) by (apply Z.mul_le_mono_nonneg_l; lia).
    lia. }
  rewrite decide_False by lia.
  destruct (decide (m2 = 2 ^ 53)) as [Htwo|Hsmall].
  - rewrite (proj2 (Z.leb_le _ _)) by lia.
    exists (2 ^ 52)%positive, (e1 + 1), m2, 1.
    split; [done|]. split; [done|]. split; [lia|]. split; [lia|].
    split; [by rewrite Htwo|]. split; [done|done].
  - rewrite (proj2 (Z.leb_le _ _)) by lia.
    exists (Z.to_pos m2), e1, m2, 0. rewrite Z2Pos.id by lia.
    split; [done|]. split; [lia|]. split; [lia|]. split; [lia|].
    split; [lia|]. split; [done|done].
Qed.

(** The quotient of two normal floats, before rounding. *)
Lemma div_normal mx ex my ey :
  2 ^ 52 ≤ Z.pos mx < 2 ^ 53 → 2 ^ 52 ≤ Z.pos my < 2 ^ 53 →
  -1021 ≤ ex - ey →
  SFdiv PyFloat.prec PyFloat.emax (S754_finite false mx ex) (S754_finite false my ey)
  = binary_round_aux PyFloat.prec PyFloat.emax false
      ((Z.pos mx * 2 ^ 53) `div` Z.pos my) (ex - ey - 53)
      (new_location (Z.pos my) ((Z.pos mx * 2 ^ 53) `mod` Z.pos my)).
Proof.
  intros Hmx Hmy He. unfold SFdiv, SFdiv_core_binary.
  assert (Zdigits2 (Z.pos mx) = 53) as ->.
  { apply Z.le_antisymm; [apply Zdigits2_le; lia|apply (Zdigits2_ge _ 52); lia]. }
  assert (Zdigits2 (Z.pos my) = 53) as ->.
  { apply Z.le_antisymm; [apply Zdigits2_le; lia|apply (Zdigits2_ge _ 52); lia]. }
  replace (Z.min (fexp (53 + ex - (53 + ey))) (ex - ey)) with (ex - ey - 53)
    by (rewrite fexp_eq; lia).
  replace (ex - ey - (ex - ey - 53)) with 53 by lia.
  cbv iota beta. rewrite Z.shiftl_mul_pow2 by lia.
  unfold Z.div, Z.modulo.
  by destruct (Z.div_eucl (Z.pos mx * 2 ^ 53) (Z.pos my)) as [q r].
Qed.

(** [float(n)] is exact for [0 < n < 2^53]. *)
Lemma of_int_exact n :
  0 < n < 2 ^ 53 →
  let d := Zdigits2 n in
  ∃ m, PyFloat.of_int n = S754_finite false m (d - 53)
       ∧ Z.pos m = n * 2 ^ (53 - d)
       ∧ 2 ^ 52 ≤ Z.pos m < 2 ^ 53
       ∧ 1 ≤ d ≤ 53.
Proof.
  intros [Hpos Hlt] d.
  assert (1 ≤ d ≤ 53) as Hd.
  { split; [unfold d; destruct n; simpl; lia|]. by apply Zdigits2_le. }
  pose proof (Zdigits2_bounds n Hpos) as [Hlo Hhi]. fold d in Hlo, Hhi.
  assert (0 < 2 ^ (53 - d)) as Hpow by (apply Z.pow_pos_nonneg; lia).
  assert (2 ^ 52 = 2 ^ (d - 1) * 2 ^ (53 - d)) as H52.
  { rewrite <- Z.pow_add_r by lia. f_equal. lia. }
  assert (2 ^ 53 = 2 ^ d * 2 ^ (53 - d)) as H53.
  { rewrite <- Z.pow_add_r by lia. f_equal. lia. }
  assert (2 ^ 52 ≤ n * 2 ^ (53 - d) < 2 ^ 53) as Hman by nia.
  rewrite of_int_mantissa53 by (split; [done|]; eapply Z.lt_trans; [exact Hlt|done]).
  assert (mantissa53 n = n * 2 ^ (53 - d)) as ->.
  { unfold mantissa53. fold d. by rewrite decide_True by lia. }
  fold d. rewrite decide_False by lia.
  exists (Z.to_pos (n * 2 ^ (53 - d))). rewrite Z2Pos.id by lia. done.
Qed.


Lemma floor_core (c t F rho q m2 mq mp m3 A B C G H N : Z) :
  0 < t → 0 ≤ c → 100 * c = F * t + rho → 1 ≤ rho ≤ t - 1 →
  0 < A → 0 < B → 0 < C → 0 < G → 64 ≤ H → 0 < N →
  q * t ≤ c * (G * A) < (q + 1) * t →
  q - A < A * m2 ≤ q + A →
  m2 = mq * B →
  mp = mq * (100 * 2 ^ 46) →
  mp - C < C * m3 ≤ mp + C →
  C * B = 2 ^ 46 * H →
  G = N * H →
  3 * t < N →
  F * N ≤ m3 < (F + 1) * N.
Proof.
  intros Ht Hc Hdiv Hrho HA HB HC HG HH HN Hq Hm2 Hmq Hmp Hm3 HCB HGN H3.
  (* one unit in the last place of the quotient *)
  assert (c * G - t < t * m2 ≤ c * G + t) as Hquot.
  { assert (A * (t * m2) ≤ A * (c * G + t)) by nia.
    assert (A * (c * G - t) < A * (t * m2)) by nia.
    split.
    - apply (Z.mul_lt_mono_pos_l A); lia.
    - apply (Z.mul_le_mono_pos_l _ _ A); lia. }
  (* one unit in the last place of the product *)
  assert (100 * m2 - H < H * m3 ≤ 100 * m2 + H) as Hprod.
  { assert (2 ^ 46 * (H * m3) = B * (C * m3)) as E1 by nia.
    assert (2 ^ 46 * (100 * m2) = B * mp) as E2 by (subst m2 mp; ring).
    assert (2 ^ 46 * H = B * C) as E3 by lia.
    assert (B * (mp - C) < B * (C * m3)) by (apply Z.mul_lt_mono_pos_l; lia).
    assert (B * (C * m3) ≤ B * (mp + C)) by (apply Z.mul_le_mono_pos_l; lia).
    split.
    - apply (Z.mul_lt_mono_pos_l (2 ^ 46)); [lia|]. lia.
    - apply (Z.mul_le_mono_pos_l _ _ (2 ^ 46)); [lia|]. lia. }
  assert (100 * c * N - 3 * t < t * m3 ≤ 100 * c * N + 3 * t) as Hboth.
  { assert (H * (t * m3) ≤ H * (100 * c * N + 3 * t)) by nia.
    assert (H * (100 * c * N - 3 * t) < H * (t * m3)) by nia.
    split.
    - apply (Z.mul_lt_mono_pos_l H); lia.
    - apply (Z.mul_le_mono_pos_l _ _ H); lia. }
  assert (t * (F * N) < t * m3 + 1 ∧ t * m3 < t * ((F + 1) * N)) as [Hlo Hhi] by nia.
  split.
  - apply (Z.mul_le_mono_pos_l _ _ t); lia.
  - apply (Z.mul_lt_mono_pos_l t); lia.
Qed.

(** The quotient of two lengths, times 100, truncated: for a percentage
    that is not a whole number the rounding errors are too small to move
    the result across a whole number. *)
Lemma percent_floor c t :
  0 < c < t → t < 2 ^ 32 → (100 * c) `mod` t ≠ 0 →
  PyFloat.to_int
    (PyFloat.mul (SFdiv PyFloat.prec PyFloat.emax (PyFloat.of_int c) (PyFloat.of_int t))
       PyFloat.hundred)
  = Return ((100 * c) `div` t).
Proof.
  intros Hc Ht Hfrac.
  assert (2 ^ 32 < 2 ^ 53) as H3253 by done.
  destruct (of_int_exact c) as (mc & -> & Hmc & Hmcn & Hdc); [lia|].
  destruct (of_int_exact t) as (mt & -> & Hmt & Hmtn & Hdt); [lia|].
  pose proof (Zdigits2_mono c t ltac:(lia)) as Hd.
  assert (Zdigits2 t ≤ 32) as Hdt32 by (apply Zdigits2_le; lia).
  set (dc := Zdigits2 c) in *. set (dt := Zdigits2 t) in *.
  rewrite div_normal by lia.
  set (e' := dc - 53 - (dt - 53) - 53).
  set (q := (Z.pos mc * 2 ^ 53) `div` Z.pos mt).
  set (loc := new_location _ _).
  pose proof (Z.div_mod (Z.pos mc * 2 ^ 53) (Z.pos mt) ltac:(lia)) as Hqr.
  pose proof (Z.mod_pos_bound (Z.pos mc * 2 ^ 53) (Z.pos mt) ltac:(lia)) as Hr.
  fold q in Hqr.
  assert (2 ^ 52 ≤ q < 2 ^ 54) as Hq.
  { split.
    - apply Z.div_le_lower_bound; [lia|]. nia.
    - apply Z.div_lt_upper_bound; [lia|]. nia. }
  assert (53 ≤ Zdigits2 q ≤ 54) as Hdq.
  { split; [apply (Zdigits2_ge _ 52); lia|apply Zdigits2_le; lia]. }
  destruct (round_normal q e' loc) as (mq & eq & m2 & j & -> & Hmqn & Heq & Hj & Hm2 & Hulp & _);
    [lia|lia|unfold e'; lia|unfold e'; lia|].
  set (k := Zdigits2 q - 53) in *.
  unfold PyFloat.mul, PyFloat.hundred, SFmul. simpl xorb. rewrite Pos2Z.inj_mul.
  set (mp := Z.pos mq * Z.pos 7036874417766400).
  assert (2 ^ 104 ≤ mp < 2 ^ 106) as Hmp by (unfold mp; lia).
  assert (105 ≤ Zdigits2 mp ≤ 106) as Hdp.
  { split; [apply (Zdigits2_ge _ 104); lia|apply Zdigits2_le; lia]. }
  destruct (round_normal mp (eq + -46) loc_Exact)
    as (m3' & e3 & m3 & j' & -> & Hm3n & He3 & Hj' & Hm3 & Hulp' & _);
    [lia|lia|unfold e' in *; lia|unfold e' in *; lia|].
  set (k' := Zdigits2 mp - 53) in *.
  cbn [PyFloat.to_int cond_Zopp]. f_equal.
  (* the exponents *)
  set (N := - (eq + -46 + k')).
  assert (44 ≤ N ≤ 200) as HN by (unfold N, e' in *; lia).
  assert (e3 = - (N - j')) as -> by (unfold N; lia).
  rewrite Z.shiftl_opp_r, Z.shiftr_div_pow2 by lia.
  pose proof (Z.div_mod (100 * c) t ltac:(lia)) as Hdiv.
  pose proof (Z.mod_pos_bound (100 * c) t ltac:(lia)) as Hrho.
  set (F := (100 * c) `div` t) in *. set (rho := (100 * c) `mod` t) in *.
  assert (0 < 2 ^ k) as HA by (apply Z.pow_pos_nonneg; lia).
  assert (0 < 2 ^ j) as HB by (apply Z.pow_pos_nonneg; lia).
  assert (0 < 2 ^ j') as HB' by (apply Z.pow_pos_nonneg; lia).
  assert (0 < 2 ^ k') as HC by (apply Z.pow_pos_nonneg; lia).
  assert (0 < 2 ^ (- (e' + k))) as HG by (apply Z.pow_pos_nonneg; unfold e'; lia).
  assert (0 < 2 ^ N) as HNpos by (apply Z.pow_pos_nonneg; lia).
  assert (0 < 2 ^ (N - j')) as HNj by (apply Z.pow_pos_nonneg; lia).
  assert (0 < 2 ^ (53 - dt)) as Hb by (apply Z.pow_pos_nonneg; lia).
  assert (2 ^ 6 ≤ 2 ^ (k' + j - 46)) as HH by (apply Z.pow_le_mono_r; lia).
  assert (2 ^ 44 ≤ 2 ^ N) as HN44 by (apply Z.pow_le_mono_r; lia).
  assert (2 ^ N = 2 ^ (N - j') * 2 ^ j') as HNsplit.
  { rewrite <- Z.pow_add_r by lia. f_equal. lia. }
  assert (q * t ≤ c * (2 ^ (- (e' + k)) * 2 ^ k) < (q + 1) * t) as Hquot.
  { rewrite <- Z.pow_add_r by (unfold e'; lia).
    replace (- (e' + k) + k) with (- e') by lia.
    assert (2 ^ (- e') * 2 ^ (53 - dt) = 2 ^ (53 - dc) * 2 ^ 53) as Hpow.
    { rewrite <- !Z.pow_add_r by (unfold e'; lia). f_equal. unfold e'. lia. }
    split.
    - apply (Z.mul_le_mono_pos_r _ _ (2 ^ (53 - dt))); [done|]. nia.
    - apply (Z.mul_lt_mono_pos_r (2 ^ (53 - dt))); [done|]. nia. }
  assert (2 ^ k' * 2 ^ j = 2 ^ 46 * 2 ^ (k' + j - 46)) as HCB.
  { rewrite <- !Z.pow_add_r by lia. f_equal. lia. }
  assert (2 ^ (- (e' + k)) = 2 ^ N * 2 ^ (k' + j - 46)) as HGN.
  { rewrite <- Z.pow_add_r by lia. f_equal. unfold N. lia. }
  assert (mp = Z.pos mq * (100 * 2 ^ 46)) as Hmp100 by done.
  destruct (floor_core c t F rho q m2 (Z.pos mq) mp m3
              (2 ^ k) (2 ^ j) (2 ^ k') (2 ^ (- (e' + k))) (2 ^ (k' + j - 46)) (2 ^ N))
    as [Hlo Hhi].
  all: try done.
  all: try lia.
  apply Z.le_antisymm.
  - assert (Z.pos m3' `div` 2 ^ (N - j') < F + 1); [|lia].
    apply Z.div_lt_upper_bound; [done|].
    apply (Z.mul_lt_mono_pos_r (2 ^ j')); [done|]. nia.
  - apply Z.div_le_lower_bound; [done|].
    apply (Z.mul_le_mono_pos_r _ _ (2 ^ j')); [done|]. nia.
Qed.

(** *** Quotients of equal ratio *)

(** The quotient of two normal floats depends on the mantissas only
    through their ratio. *)
Lemma div_same_mantissa_ratio mx ex my ey mx' ex' my' ey' :
  2 ^ 52 ≤ Z.pos mx < 2 ^ 53 → 2 ^ 52 ≤ Z.pos my < 2 ^ 53 →
  2 ^ 52 ≤ Z.pos mx' < 2 ^ 53 → 2 ^ 52 ≤ Z.pos my' < 2 ^ 53 →
  -1021 ≤ ex - ey →
  Z.pos mx * Z.pos my' = Z.pos mx' * Z.pos my → ex - ey = ex' - ey' →
  SFdiv PyFloat.prec PyFloat.emax (S754_finite false mx ex) (S754_finite false my ey)
  = SFdiv PyFloat.prec PyFloat.emax (S754_finite false mx' ex') (S754_finite false my' ey').
Proof.
  intros Hmx Hmy Hmx' Hmy' He Hratio Hexp.
  rewrite !div_normal by lia. rewrite <- Hexp.
  set (a := Z.pos mx * 2 ^ 53). set (a' := Z.pos mx' * 2 ^ 53).
  set (b := Z.pos my) in *. set (b' := Z.pos my') in *.
  assert (a * b' = a' * b) as Hab by (unfold a, a'; lia).
  assert (a `div` b = a' `div` b') as Hq.
  { rewrite <- (Z.div_mul_cancel_r a b b') by lia.
    rewrite <- (Z.div_mul_cancel_r a' b' b) by lia.
    by rewrite Hab, (Z.mul_comm b b'). }
  assert (a `mod` b * b' = a' `mod` b' * b) as Hr.
  { rewrite <- !Z.mul_mod_distr_r by lia. by rewrite Hab, (Z.mul_comm b b'). }
  pose proof (Z.mod_pos_bound a b ltac:(lia)) as Hrb.
  pose proof (Z.mod_pos_bound a' b' ltac:(lia)) as Hrb'.
  rewrite Hq. f_equal.
  rewrite !new_location_spec by done.
  set (r := a `mod` b) in *. set (r' := a' `mod` b') in *.
  destruct (decide (r = 0)) as [Hz|Hnz].
  - rewrite decide_True; [done|]. rewrite Hz in Hr. nia.
  - rewrite decide_False; [|intros Hz'; rewrite Hz' in Hr; nia].
    f_equal.
    destruct (Z.compare_spec (2 * r) b), (Z.compare_spec (2 * r') b');
      try done; exfalso; nia.
Qed.

Lemma shr_record_eq m r s mrs :
  shr_m mrs = m → shr_r mrs = r → shr_s mrs = s → mrs = Build_shr_record m r s.
Proof. destruct mrs. simpl. by intros -> -> ->. Qed.

(** Doubling the ratio of the mantissas and lowering the exponent by one
    gives the same quotient. *)
Lemma div_double_mantissa_ratio mx ex my ey mx' ex' my' ey' :
  2 ^ 52 ≤ Z.pos mx < 2 ^ 53 → 2 ^ 52 ≤ Z.pos my < 2 ^ 53 →
  2 ^ 52 ≤ Z.pos mx' < 2 ^ 53 → 2 ^ 52 ≤ Z.pos my' < 2 ^ 53 →
  -1021 ≤ ex - ey → ex - ey ≤ 900 →
  Z.pos mx * Z.pos my' = 2 * (Z.pos mx' * Z.pos my) → ex - ey = ex' - ey' - 1 →
  SFdiv PyFloat.prec PyFloat.emax (S754_finite false mx ex) (S754_finite false my ey)
  = SFdiv PyFloat.prec PyFloat.emax (S754_finite false mx' ex') (S754_finite false my' ey').
Proof.
  intros Hmx Hmy Hmx' Hmy' He He' Hratio Hexp.
  rewrite !div_normal by lia.
  replace (ex' - ey' - 53) with (ex - ey - 53 + 1) by lia.
  set (e := ex - ey - 53).
  set (a := Z.pos mx * 2 ^ 53). set (a' := Z.pos mx' * 2 ^ 53).
  set (b := Z.pos my) in *. set (b' := Z.pos my') in *.
  assert (a * b' = 2 * a' * b) as Hab by (unfold a, a'; lia).
  assert (a `div` b = (2 * a') `div` b') as Hq.
  { rewrite <- (Z.div_mul_cancel_r a b b') by lia.
    rewrite <- (Z.div_mul_cancel_r (2 * a') b' b) by lia.
    by rewrite Hab, (Z.mul_comm b b'). }
  assert (a `mod` b * b' = (2 * a') `mod` b' * b) as Hr.
  { rewrite <- !Z.mul_mod_distr_r by lia. by rewrite Hab, (Z.mul_comm b b'). }
  pose proof (Z.mod_pos_bound a b ltac:(lia)) as Hrb.
  pose proof (Z.mod_pos_bound a' b' ltac:(lia)) as Hrb'.
  pose proof (Z.mod_pos_bound (2 * a') b' ltac:(lia)) as Hrb2.
  pose proof (Z.div_mod a' b' ltac:(lia)) as Hdm'.
  pose proof (Z.div_mod (2 * a') b' ltac:(lia)) as Hdm2.
  set (q := a `div` b) in *. set (r := a `mod` b) in *.
  set (q' := a' `div` b') in *. set (r' := a' `mod` b') in *.
  set (q2 := (2 * a') `div` b') in *. set (r2 := (2 * a') `mod` b') in *.
  (* the quotient of the doubled ratio *)
  assert ((2 * r' < b' ∧ q2 = 2 * q' ∧ r2 = 2 * r')
          ∨ (b' ≤ 2 * r' ∧ q2 = 2 * q' + 1 ∧ r2 = 2 * r' - b')) as Hcases.
  { destruct (decide (2 * r' < b')) as [Hlt|Hge]; [left|right]; (split; [lia|]).
    - assert (q2 = 2 * q') by nia. lia.
    - assert (q2 = 2 * q' + 1) by nia. lia. }
  assert (2 ^ 52 ≤ q' < 2 ^ 53) as Hq'.
  { assert (a' < b' * 2 ^ 53 ∧ b' * 2 ^ 52 ≤ a') as [Hup Hdown].
    { assert (2 * (Z.pos mx' * b) < 2 * (b' * b) ∧ b' * b ≤ 2 * (Z.pos mx' * b));
        [|unfold a'; nia].
      rewrite <- Hratio. nia. }
    split.
    - apply Z.div_le_lower_bound; lia.
    - apply Z.div_lt_upper_bound; lia. }
  assert (2 ^ 53 ≤ q < 2 ^ 54) as Hqb by lia.
  assert (Zdigits2 q = 54) as Hdq.
  { apply Z.le_antisymm; [apply Zdigits2_le; lia|apply (Zdigits2_ge _ 53); lia]. }
  assert (Zdigits2 q' = 53) as Hdq'.
  { apply Z.le_antisymm; [apply Zdigits2_le; lia|apply (Zdigits2_ge _ 52); lia]. }
  unfold binary_round_aux, shr_fexp. rewrite Hdq, Hdq'.
  replace (fexp (54 + e) - e) with 1 by (rewrite fexp_eq; unfold e; lia).
  replace (fexp (53 + (e + 1)) - (e + 1)) with 0 by (rewrite fexp_eq; unfold e; lia).
  cbn [shr SpecFloat.iter_pos].
  assert (shr_1 (shr_record_of_loc q (new_location b r))
          = shr_record_of_loc q' (new_location b' r')) as ->; [|done].
  rewrite !new_location_spec by done.
  set (loc := if decide (r = 0) then loc_Exact else loc_Inexact (2 * r ?= b)).
  assert (shr_m (shr_record_of_loc q loc) = q) as Hmq by (by destruct loc as [|[]]).
  destruct (shr_1_bits (shr_record_of_loc q loc)) as (Hm & Hrr & Hs).
  { rewrite Hmq. lia. }
  rewrite Hmq in Hm, Hrr.
  assert (r = 0 ↔ r2 = 0) as Hzero by nia.
  assert (shr_r (shr_record_of_loc q loc) || shr_s (shr_record_of_loc q loc)
          = bool_decide (r2 ≠ 0)) as Hsticky.
  { unfold loc. destruct (decide (r = 0)) as [Hz|Hnz].
    - rewrite bool_decide_eq_false_2 by tauto. done.
    - rewrite bool_decide_eq_true_2 by tauto. by destruct (2 * r ?= b). }
  rewrite Hsticky in Hs.
  eapply eq_trans; [apply (shr_record_eq _ _ _ _ Hm Hrr Hs)|].
  destruct Hcases as [(Hlt & Hq2 & Hr2)|(Hge & Hq2 & Hr2)].
  - assert (q `div` 2 = q') as -> by (rewrite Hq, Hq2; Z.div_mod_to_equations; lia).
    rewrite (bool_decide_eq_false_2 (q `mod` 2 = 1))
      by (rewrite Hq, Hq2; Z.div_mod_to_equations; lia).
    destruct (decide (r' = 0)) as [Hz'|Hnz'].
    + rewrite bool_decide_eq_false_2 by lia. done.
    + rewrite bool_decide_eq_true_2 by lia.
      by rewrite (proj2 (Z.compare_lt_iff (2 * r') b')) by lia.
  - assert (q `div` 2 = q') as -> by (rewrite Hq, Hq2; Z.div_mod_to_equations; lia).
    rewrite (bool_decide_eq_true_2 (q `mod` 2 = 1))
      by (rewrite Hq, Hq2; Z.div_mod_to_equations; lia).
    rewrite decide_False by lia.
    destruct (decide (2 * r' = b')) as [Heq|Hne].
    + rewrite bool_decide_eq_false_2 by lia.
      by rewrite (proj2 (Z.compare_eq_iff (2 * r') b')) by lia.
    + rewrite bool_decide_eq_true_2 by lia.
      by rewrite (proj2 (Z.compare_gt_iff (2 * r') b')) by lia.
Qed.

(** The quotient of the floats of two lengths depends only on the ratio of
    the lengths. *)
Lemma div_of_int_same_ratio c t c' t' :
  0 < c < 2 ^ 53 → 0 < t < 2 ^ 53 → 0 < c' < 2 ^ 53 → 0 < t' < 2 ^ 53 →
  c * t' = c' * t →
  SFdiv PyFloat.prec PyFloat.emax (PyFloat.of_int c) (PyFloat.of_int t)
  = SFdiv PyFloat.prec PyFloat.emax (PyFloat.of_int c') (PyFloat.of_int t').
Proof.
  intros Hc Ht Hc' Ht' Hratio.
  destruct (of_int_exact c Hc) as (mc & -> & Hmc & Hmcn & Hdc).
  destruct (of_int_exact t Ht) as (mt & -> & Hmt & Hmtn & Hdt).
  destruct (of_int_exact c' Hc') as (mc' & -> & Hmc' & Hmcn' & Hdc').
  destruct (of_int_exact t' Ht') as (mt' & -> & Hmt' & Hmtn' & Hdt').
  set (dc := Zdigits2 c) in *. set (dt := Zdigits2 t) in *.
  set (dc' := Zdigits2 c') in *. set (dt' := Zdigits2 t') in *.
  assert (Z.pos mc * Z.pos mt' * 2 ^ (dc + dt') = Z.pos mc' * Z.pos mt * 2 ^ (dc' + dt))
    as Hprod.
  { transitivity (c * t' * 2 ^ 106).
    - rewrite Hmc, Hmt'.
      replace (2 ^ 106) with (2 ^ (53 - dc) * 2 ^ (53 - dt') * 2 ^ (dc + dt')); [ring|].
      rewrite <- !Z.pow_add_r by lia. f_equal. lia.
    - rewrite Hratio, Hmc', Hmt.
      replace (2 ^ 106) with (2 ^ (53 - dc') * 2 ^ (53 - dt) * 2 ^ (dc' + dt)); [ring|].
      rewrite <- !Z.pow_add_r by lia. f_equal. lia. }
  assert (2 ^ 104 ≤ Z.pos mc * Z.pos mt' < 2 ^ 106) as Hp by nia.
  assert (2 ^ 104 ≤ Z.pos mc' * Z.pos mt < 2 ^ 106) as Hp' by nia.
  set (s := dc + dt') in *. set (s' := dc' + dt) in *.
  set (p := Z.pos mc * Z.pos mt') in *. set (p' := Z.pos mc' * Z.pos mt) in *.
  assert (0 < 2 ^ s') as Hs' by (apply Z.pow_pos_nonneg; lia).
  assert (0 < 2 ^ s) as Hs by (apply Z.pow_pos_nonneg; lia).
  destruct (Z.lt_trichotomy s s') as [Hlt|[Heq|Hgt]].
  - (* s < s' *)
    assert (s' = s + 1) as Hs1.
    { destruct (decide (s + 2 ≤ s')) as [Hbig|]; [exfalso|lia].
      assert (2 ^ s * 2 ^ 2 ≤ 2 ^ s').
      { rewrite <- Z.pow_add_r by lia. apply Z.pow_le_mono_r; lia. }
      nia. }
    rewrite Hs1, Z.pow_add_r in Hprod by lia. change (2 ^ 1) with 2 in Hprod.
    apply div_double_mantissa_ratio; try done; try lia. unfold p, p' in *. nia.
  - rewrite Heq in Hprod.
    apply div_same_mantissa_ratio; try done; try lia. unfold p, p' in *. nia.
  - assert (s = s' + 1) as Hs1.
    { destruct (decide (s' + 2 ≤ s)) as [Hbig|]; [exfalso|lia].
      assert (2 ^ s' * 2 ^ 2 ≤ 2 ^ s).
      { rewrite <- Z.pow_add_r by lia. apply Z.pow_le_mono_r; lia. }
      nia. }
    rewrite Hs1, Z.pow_add_r in Hprod by lia. change (2 ^ 1) with 2 in Hprod.
    symmetry.
    apply div_double_mantissa_ratio; try done; try lia. unfold p, p' in *. nia.
Qed.

End binary64_exact.

(** ** Whole and fractional percentages *)

(** The whole percentages: [int(float(k) / 100 * 100)] is [k] for every
    [k] from 0 to 100 but 29, 57 and 58, where the product of the rounded
    quotient by 100 falls just below [k]. *)
Lemma percent_of_hundred k :
  0 ≤ k ≤ 100 →
  PyFloat.to_int
    (PyFloat.mul (SFdiv PyFloat.prec PyFloat.emax (PyFloat.of_int k) (PyFloat.of_int 100))
       PyFloat.hundred)
  = Return (if decide (k ∈ [29; 57; 58]) then k - 1 else k).
Proof.
  intros Hk.
  set (check := λ k,
         match PyFloat.to_int
                 (PyFloat.mul
                    (SFdiv PyFloat.prec PyFloat.emax (PyFloat.of_int k) (PyFloat.of_int 100))
                    PyFloat.hundred)
         with
         | Return r => r =? (if bool_decide (k ∈ [29; 57; 58]) then k - 1 else k)
         | Raise _ => false
         end).
  assert (forallb check (seqZ 0 101) = true) as Hall by (vm_compute; reflexivity).
  rewrite forallb_forall in Hall.
  assert (In k (seqZ 0 101)) as Hin by (apply list_elem_of_In, elem_of_seqZ; lia).
  specialize (Hall k Hin). unfold check in Hall.
  destruct (PyFloat.to_int _) as [r|e]; [|done].
  apply Z.eqb_eq in Hall. rewrite Hall.
  by case_bool_decide; case_decide.
Qed.

(** The floor of the specification, as a quotient of integers. *)
Lemma total_percent_div missing total :
  0 < total →
  Spec.total_percent missing total = (100 * (total - missing)) `div` total.
Proof.
  intros Ht. unfold Spec.total_percent.
  rewrite <- (Qfloor_comp ((100 * (total - missing)) # Z.to_pos total)).
  - unfold Qfloor. by rewrite Z2Pos.id.
  - unfold Qeq, Qminus, Qplus, Qopp, Qdiv, Qmult, Qinv, inject_Z. simpl.
    destruct total as [|p|p]; [lia| |lia]. simpl. lia.
Qed.

(** [int(float(c) / t * 100)] for [0 ≤ c ≤ t]: the floor of the exact
    percentage, except at the exact percentages 29, 57 and 58. *)
Lemma percent_int c t :
  0 ≤ c ≤ t → 0 < t < 2 ^ 32 →
  PyFloat.to_int
    (PyFloat.mul (SFdiv PyFloat.prec PyFloat.emax (PyFloat.of_int c) (PyFloat.of_int t))
       PyFloat.hundred)
  = Return (if decide (100 * c = 29 * t ∨ 100 * c = 57 * t ∨ 100 * c = 58 * t)
            then (100 * c) `div` t - 1 else (100 * c) `div` t).
Proof.
  intros Hc Ht.
  assert (2 ^ 32 < 2 ^ 53) as H3253 by done.
  pose proof (Z.div_mod (100 * c) t ltac:(lia)) as Hdiv.
  pose proof (Z.mod_pos_bound (100 * c) t ltac:(lia)) as Hmod.
  destruct (decide (c = 0)) as [->|Hc0].
  { rewrite div_zero_of_int by lia. rewrite decide_False by lia. done. }
  destruct (decide ((100 * c) `mod` t = 0)) as [Hwhole|Hfrac].
  - set (k := (100 * c) `div` t) in *.
    assert (100 * c = k * t) as Hk by lia.
    assert (1 ≤ k ≤ 100) as Hk100 by nia.
    rewrite (div_of_int_same_ratio c t k 100) by lia.
    rewrite percent_of_hundred by lia. f_equal.
    destruct (decide (k ∈ [29; 57; 58])) as [Hin|Hnin].
    + rewrite decide_True; [done|].
      rewrite !elem_of_cons in Hin. destruct Hin as [->|[->|[->|Hin]]]; auto.
      by apply elem_of_nil in Hin.
    + rewrite decide_False; [done|].
      intros Hor. apply Hnin. rewrite !elem_of_cons.
      destruct Hor as [H|[H|H]]; rewrite Hk in H;
        apply Z.mul_cancel_r in H; try lia; auto.
  - assert (c < t) as Hlt.
    { destruct (decide (c = t)) as [->|]; [|lia].
      exfalso. apply Hfrac, Z.mod_mul. lia. }
    rewrite percent_floor by lia.
    rewrite decide_False; [done|].
    intros [H|[H|H]]; apply Hfrac; rewrite H; apply Z.mod_mul; lia.
Qed.

(** ** The total percentage and the floor of the specification *)

(** The exact percentage of the specification is the whole number [k]. *)
Lemma percent_eq_whole missing total k :
  0 < total →
  (100 - inject_Z missing / inject_Z total * 100 == inject_Z k)%Q
  ↔ 100 * (total - missing) = k * total.
Proof.
  intros Ht.
  unfold Qeq, Qminus, Qplus, Qopp, Qdiv, Qmult, Qinv, inject_Z. simpl.
  destruct total as [|p|p]; [lia| |lia]. simpl. lia.
Qed.

(** C5 as stated fails: with 50 measured lines and 21 missing ones
    [total_percent_covered] returns 57 while floor(100 - 21/50*100) is 58
    (the double 29/50*100 is just below 58); and with one measured line and
    two missing ones it returns -100. *)
Lemma total_percent_covered_below_floor_or_negative :
  (let self := Examples.generator ["a.py"%string] (seqZ 1 21) None (seqZ 1 50) in
   BaseReportGenerator.total_num_lines self = 50
   ∧ BaseReportGenerator.total_num_missing self = 21
   ∧ BaseReportGenerator.total_percent_covered self = Return 57
   ∧ Spec.total_percent 21 50 = 58)
  ∧ (let self := Examples.generator ["a.py"%string] [6; 7] (Some [5]) [5; 6; 7] in
     BaseReportGenerator.total_num_lines self = 1
     ∧ BaseReportGenerator.total_num_missing self = 2
     ∧ BaseReportGenerator.total_percent_covered self = Return (-100)).
Proof. repeat split; by_computation. Qed.

(** C5, amended.  [total_num_lines] is never negative.  When it is 0, in
    particular when the diff touches no file, [total_percent_covered]
    returns 100.  When it is positive and [total_num_missing] is at most
    [total_num_lines], the result is an integer between 0 and 100 (for
    fewer than 2^63 lines) and, for fewer than 2^32 lines, it is
    floor(100 - total_num_missing / total_num_lines * 100) whenever that
    percentage is not exactly 29, 57 or 58.  At these three percentages the
    double product falls just below the whole number and the code returns
    one less: 28, 56, 57. *)
Theorem total_percent_covered_value self :
  let total_lines := BaseReportGenerator.total_num_lines self in
  let missing := BaseReportGenerator.total_num_missing self in
  let percent := (100 - inject_Z missing / inject_Z total_lines * 100)%Q in
  0 ≤ total_lines
  ∧ (total_lines = 0 → BaseReportGenerator.total_percent_covered self = Return 100)
  ∧ (DiffReporter.src_paths_changed (BaseReportGenerator._diff self) = [] →
     BaseReportGenerator.total_percent_covered self = Return 100)
  ∧ (0 < total_lines → missing ≤ total_lines → total_lines < 2 ^ 63 →
     ∃ r, BaseReportGenerator.total_percent_covered self = Return r ∧ 0 ≤ r ≤ 100)
  ∧ (0 < total_lines → missing ≤ total_lines → total_lines < 2 ^ 32 →
     ¬ (percent == 29 ∨ percent == 57 ∨ percent == 58)%Q →
     BaseReportGenerator.total_percent_covered self
     = Return (Spec.total_percent missing total_lines))
  ∧ (0 < total_lines → missing ≤ total_lines → total_lines < 2 ^ 32 →
     (percent == 29 ∨ percent == 57 ∨ percent == 58)%Q →
     BaseReportGenerator.total_percent_covered self
     = Return (Spec.total_percent missing total_lines - 1)).
Proof.
  intros total_lines missing percent.
  assert (Hzero : total_lines = 0 →
                  BaseReportGenerator.total_percent_covered self = Return 100).
  { intros Hz. unfold BaseReportGenerator.total_percent_covered.
    fold total_lines. rewrite Hz. done. }
  pose proof (total_num_missing_nonneg self) as Hmiss. fold missing in Hmiss.
  assert (Hwhole : 0 < total_lines →
            ((percent == 29 ∨ percent == 57 ∨ percent == 58)%Q
             ↔ (100 * (total_lines - missing) = 29 * total_lines
                ∨ 100 * (total_lines - missing) = 57 * total_lines
                ∨ 100 * (total_lines - missing) = 58 * total_lines))).
  { intros Hpos. unfold percent.
    rewrite <- !(percent_eq_whole missing total_lines) by done. done. }
  split; [apply total_num_lines_nonneg|]. split; [exact Hzero|].
  split; [|split; [|split]].
  - intros Hnil. apply Hzero. unfold total_lines, BaseReportGenerator.total_num_lines,
      BaseReportGenerator._diff_violations. rewrite Hnil. simpl. apply map_fold_empty.
  - intros Hpos Hle Hlt. rewrite total_percent_covered_pos by done.
    apply to_int_at_most_hundred, mul_hundred_at_most, of_int_div_at_most_one.
    + fold missing total_lines. lia.
    + done.
  - intros Hpos Hle Hlt Hnot. rewrite total_percent_covered_pos by done.
    fold total_lines missing. rewrite percent_int by lia.
    rewrite decide_False by (by rewrite <- Hwhole).
    by rewrite total_percent_div.
  - intros Hpos Hle Hlt Hyes. rewrite total_percent_covered_pos by done.
    fold total_lines missing. rewrite percent_int by lia.
    rewrite decide_True by (by rewrite <- Hwhole).
    by rewrite total_percent_div.
Qed.

(** C5 at one missing line among five measured lines: 80. *)
Lemma total_percent_covered_value_witness :
  let self := Examples.generator ["a.py"%string] [3] None [1; 2; 3; 4; 5] in
  BaseReportGenerator.total_percent_covered self = Return 80
  ∧ ∃ r, BaseReportGenerator.total_percent_covered self = Return r ∧ 0 ≤ r ≤ 100.
Proof.
  intros self.
  destruct (total_percent_covered_value self) as (_ & _ & _ & Hrange & Hfloor & _).
  split.
  - etrans; [apply Hfloor|by_computation].
    + by_computation.
    + by_computation.
    + by_computation.
    + intros [H|[H|H]]; vm_compute in H; discriminate H.
  - apply Hrange; by_computation.
Defined.

(** ** Full and empty coverage *)

(** X11.  For a path whose entry has measured lines, [percent_covered]
    returns the float 100.0 when the entry has no violation line, and the
    float 0.0 when its violation lines are all its measured lines, these
    being fewer than 2^63. *)
Theorem percent_covered_extremes self src_path dv :
  BaseReportGenerator._diff_violations self !! src_path = Some dv →
  DiffViolations.measured_lines dv ≠ ∅ →
  (DiffViolations.lines dv = ∅ →
   BaseReportGenerator.percent_covered self src_path = Return (Some PyFloat.hundred))
  ∧ (DiffViolations.lines dv = DiffViolations.measured_lines dv →
     Py.len_set (DiffViolations.measured_lines dv) < 2 ^ 63 →
     BaseReportGenerator.percent_covered self src_path
     = Return (Some (S754_zero false))).
Proof.
  intros Hdv Hne. apply len_set_pos in Hne.
  rewrite (percent_covered_entry _ _ _ Hdv). unfold PyFloat.truediv.
  rewrite of_int_nonzero by done. split.
  - intros ->. change (Py.len_set ∅) with 0. cbn [mbind result_bind].
    rewrite div_zero_of_int by done. by_computation.
  - intros -> Hlt. cbn [mbind result_bind].
    rewrite div_of_int_self by done. by_computation.
Qed.

(** X11 at four measured changed lines without violation. *)
Lemma percent_covered_extremes_witness :
  let self := Examples.generator ["a.py"%string] [] (Some [1; 2; 3; 7]) [1; 2; 3; 4; 5] in
  BaseReportGenerator.percent_covered self "a.py" = Return (Some PyFloat.hundred).
Proof.
  intros self.
  destruct (percent_covered_extremes self "a.py" (entry self "a.py")) as [Hfull _].
  - by_computation.
  - decide_by_computation.
  - apply Hfull. by_computation.
Defined.

(** X12.  With a measured line in the diff, [total_percent_covered] returns
    100 when no line is missing, the measured lines being fewer than 2^63,
    and 0 when [total_num_missing] equals [total_num_lines]. *)
Theorem total_percent_covered_extremes self :
  0 < BaseReportGenerator.total_num_lines self →
  (BaseReportGenerator.total_num_missing self = 0 →
   BaseReportGenerator.total_num_lines self < 2 ^ 63 →
   BaseReportGenerator.total_percent_covered self = Return 100)
  ∧ (BaseReportGenerator.total_num_missing self = BaseReportGenerator.total_num_lines self →
     BaseReportGenerator.total_percent_covered self = Return 0).
Proof.
  intros Hpos. rewrite total_percent_covered_pos by done. split.
  - intros -> Hlt. rewrite Z.sub_0_r, div_of_int_self by done. by_computation.
  - intros ->. rewrite Z.sub_diag, div_zero_of_int by done. by_computation.
Qed.

(** X12 at two paths of three changed lines without violation. *)
Lemma total_percent_covered_extremes_witness :
  let self := Examples.generator ["a.py"; "b.py"]%string [] None [1; 2; 3] in
  BaseReportGenerator.total_percent_covered self = Return 100.
Proof.
  intros self.
  destruct (total_percent_covered_extremes self) as [Hfull _].
  - by_computation.
  - apply Hfull; by_computation.
Defined.

(** ** Sums *)

Lemma sum_Z_Permutation l1 l2 : l1 ≡ₚ l2 → sum_Z l1 = sum_Z l2.
Proof.
  unfold sum_Z.
  induction 1 as [|x l l' _ IH|x y l|l l' l'' _ IH1 _ IH2]; simpl;
    [done|by rewrite IH|lia|by rewrite IH1].
Qed.

Lemma sum_Z_le {A} (f g : A → Z) l :
  (∀ x, x ∈ l → f x ≤ g x) → sum_Z (f <$> l) ≤ sum_Z (g <$> l).
Proof.
  unfold sum_Z. induction l as [|x l IH]; intros Hle; [done|].
  rewrite !fmap_cons. cbn [foldr].
  assert (f x ≤ g x) by apply Hle, list_elem_of_here.
  assert (foldr Z.add 0 (f <$> l) ≤ foldr Z.add 0 (g <$> l)); [|lia].
  apply IH. intros y Hy. by apply Hle, list_elem_of_further.
Qed.

Lemma sum_Z_ext {A} (f g : A → Z) l :
  (∀ x, x ∈ l → f x = g x) → sum_Z (f <$> l) = sum_Z (g <$> l).
Proof.
  intros Heq. f_equal. apply list_fmap_ext. intros i x Hx. apply Heq.
  apply list_elem_of_lookup. eauto.
Qed.

Lemma sum_Z_filter {A} (P : A → Prop) `{∀ x, Decision (P x)} (f : A → Z) l :
  (∀ x, x ∈ l → ¬ P x → f x = 0) → sum_Z (f <$> filter P l) = sum_Z (f <$> l).
Proof.
  unfold sum_Z. induction l as [|x l IH]; intros Hz; [done|].
  rewrite filter_cons.
  assert (IH' : foldr Z.add 0 (f <$> filter P l) = foldr Z.add 0 (f <$> l)).
  { apply IH. intros y Hy. by apply Hz, list_elem_of_further. }
  case_decide as HP; rewrite !fmap_cons; cbn [foldr]; rewrite IH'; [done|].
  rewrite (Hz x); [done|apply list_elem_of_here|done].
Qed.

Lemma sum_Z_zero {A} (f : A → Z) l :
  (∀ x, x ∈ l → 0 < f x) → sum_Z (f <$> l) = 0 → l = [].
Proof.
  intros Hpos. destruct l as [|x l]; [done|]. unfold sum_Z.
  rewrite fmap_cons. cbn [foldr]. intros Hsum.
  assert (0 < f x) by apply Hpos, list_elem_of_here.
  assert (0 ≤ foldr Z.add 0 (f <$> l)); [|lia].
  clear Hsum. induction l as [|y l IH]; [done|].
  rewrite fmap_cons. cbn [foldr].
  assert (0 < f y) by apply Hpos, list_elem_of_further, list_elem_of_here.
  assert (0 ≤ foldr Z.add 0 (f <$> l)); [|lia].
  apply IH. intros z [->|Hz]%elem_of_cons; apply Hpos.
  - apply list_elem_of_here.
  - by do 2 apply list_elem_of_further.
Qed.

(** A sum over the values of [_diff_violations] is a sum over the distinct
    paths of the diff. *)
Lemma diff_violations_sum self (g : DiffViolations.t → Z) :
  map_fold (λ _ summary acc, acc + g summary) 0 (BaseReportGenerator._diff_violations self)
  = sum_Z ((λ p, g (entry self p))
             <$> remove_dups (DiffReporter.src_paths_changed (BaseReportGenerator._diff self))).
Proof.
  rewrite map_fold_foldr.
  set (paths := DiffReporter.src_paths_changed (BaseReportGenerator._diff self)).
  transitivity (sum_Z ((λ kv, g kv.2)
                  <$> map_to_list (BaseReportGenerator._diff_violations self))).
  { unfold sum_Z. induction (map_to_list _) as [|[k v] l IH]; [done|].
    rewrite fmap_cons. cbn [foldr uncurry]. rewrite IH. simpl. lia. }
  rewrite (list_fmap_compose (λ p, (p, entry self p)) (λ kv, g kv.2)).
  apply sum_Z_Permutation, fmap_Permutation.
  apply NoDup_Permutation.
  - apply NoDup_map_to_list.
  - apply NoDup_fmap_2; [by intros p q [= ->]|apply NoDup_remove_dups].
  - intros [k v]. rewrite elem_of_map_to_list, lookup_diff_violations_Some.
    rewrite list_elem_of_fmap. setoid_rewrite elem_of_remove_dups. fold paths.
    split.
    + intros [Hin ->]. by exists k.
    + by intros (p & [= -> ->] & Hp).
Qed.

Lemma total_num_lines_sum self :
  BaseReportGenerator.total_num_lines self
  = sum_Z ((λ p, Py.len_set (DiffViolations.measured_lines (entry self p)))
             <$> elements (BaseReportGenerator.src_paths self)).
Proof.
  unfold BaseReportGenerator.total_num_lines.
  rewrite (diff_violations_sum self (λ dv, Py.len_set (DiffViolations.measured_lines dv))).
  set (paths := DiffReporter.src_paths_changed (BaseReportGenerator._diff self)).
  rewrite <- (sum_Z_filter (λ p, DiffViolations.measured_lines (entry self p) ≠ ∅)).
  - apply sum_Z_Permutation, fmap_Permutation, NoDup_Permutation.
    + apply NoDup_filter, NoDup_remove_dups.
    + apply NoDup_elements.
    + intros p. rewrite list_elem_of_filter, elem_of_remove_dups, elem_of_elements.
      rewrite elem_of_src_paths. fold paths. tauto.
  - intros p _ Hempty. destruct (decide (DiffViolations.measured_lines (entry self p) = ∅))
      as [->|]; [done|]. by destruct Hempty.
Qed.

Lemma length_missing_lines self src_path :
  src_path ∈ DiffReporter.src_paths_changed (BaseReportGenerator._diff self) →
  Z.of_nat (length (BaseReportGenerator.missing_lines self src_path))
  = Py.len_set (DiffViolations.lines (entry self src_path)).
Proof.
  intros Hin. unfold BaseReportGenerator.missing_lines.
  rewrite lookup_diff_violations, decide_True by done.
  unfold Py.sorted, Py.len_set. by rewrite merge_sort_Permutation.
Qed.

(** X15.  [total_num_missing] is the sum of the lengths of
    [missing_lines] over the distinct paths of the diff.  [total_num_lines]
    is the sum of the numbers of measured lines of the entries over the
    distinct paths of the diff, and also over the paths of [src_paths]
    alone. *)
Theorem totals_are_sums self :
  let paths := remove_dups (DiffReporter.src_paths_changed (BaseReportGenerator._diff self)) in
  let measured := λ p,
    match BaseReportGenerator._diff_violations self !! p with
    | Some dv => Py.len_set (DiffViolations.measured_lines dv)
    | None => 0
    end in
  BaseReportGenerator.total_num_missing self
  = sum_Z ((λ p, Z.of_nat (length (BaseReportGenerator.missing_lines self p))) <$> paths)
  ∧ BaseReportGenerator.total_num_lines self = sum_Z (measured <$> paths)
  ∧ BaseReportGenerator.total_num_lines self
    = sum_Z (measured <$> elements (BaseReportGenerator.src_paths self)).
Proof.
  intros paths measured.
  assert (Hmeasured : ∀ p,
            p ∈ DiffReporter.src_paths_changed (BaseReportGenerator._diff self) →
            Py.len_set (DiffViolations.measured_lines (entry self p)) = measured p).
  { intros p Hp. unfold measured. by rewrite lookup_diff_violations, decide_True. }
  split; [|split].
  - unfold BaseReportGenerator.total_num_missing.
    rewrite (diff_violations_sum self (λ dv, Py.len_set (DiffViolations.lines dv))).
    apply sum_Z_ext. intros p Hp. apply (proj1 (elem_of_remove_dups _ _)) in Hp.
    by rewrite length_missing_lines.
  - unfold BaseReportGenerator.total_num_lines.
    rewrite (diff_violations_sum self (λ dv, Py.len_set (DiffViolations.measured_lines dv))).
    apply sum_Z_ext. intros p Hp. apply (proj1 (elem_of_remove_dups _ _)) in Hp.
    by apply Hmeasured.
  - rewrite total_num_lines_sum. apply sum_Z_ext.
    intros p [Hp _]%elem_of_elements%elem_of_src_paths. by apply Hmeasured.
Qed.

(** X13.  [total_num_lines] is 0 exactly when [src_paths] is empty, and
    then [total_percent_covered] returns 100. *)
Theorem total_num_lines_zero_iff_no_src_paths self :
  (BaseReportGenerator.total_num_lines self = 0 ↔ BaseReportGenerator.src_paths self = ∅)
  ∧ (BaseReportGenerator.src_paths self = ∅ →
     BaseReportGenerator.total_percent_covered self = Return 100).
Proof.
  assert (Hiff : BaseReportGenerator.total_num_lines self = 0
                 ↔ BaseReportGenerator.src_paths self = ∅).
  { rewrite total_num_lines_sum. split.
    - intros Hsum. apply sum_Z_zero in Hsum.
      + by apply elements_empty_inv, leibniz_equiv in Hsum.
      + intros p [_ Hne]%elem_of_elements%elem_of_src_paths. by apply len_set_pos.
    - intros ->. by rewrite elements_empty. }
  split; [done|]. intros Hempty%Hiff.
  unfold BaseReportGenerator.total_percent_covered. by rewrite Hempty.
Qed.

(** X14.  When in every entry the violation lines are among the measured
    lines, [total_num_missing] is at most [total_num_lines]; if moreover
    [total_num_lines] is below 2^63, [total_percent_covered] returns an
    integer between 0 and 100. *)
Theorem total_num_missing_le_total_num_lines self :
  (∀ src_path dv, BaseReportGenerator._diff_violations self !! src_path = Some dv →
                  DiffViolations.lines dv ⊆ DiffViolations.measured_lines dv) →
  BaseReportGenerator.total_num_missing self ≤ BaseReportGenerator.total_num_lines self
  ∧ (BaseReportGenerator.total_num_lines self < 2 ^ 63 →
     ∃ r, BaseReportGenerator.total_percent_covered self = Return r ∧ 0 ≤ r ≤ 100).
Proof.
  intros Hsub.
  assert (Hle : BaseReportGenerator.total_num_missing self
                ≤ BaseReportGenerator.total_num_lines self).
  { unfold BaseReportGenerator.total_num_missing, BaseReportGenerator.total_num_lines.
    rewrite (diff_violations_sum self (λ dv, Py.len_set (DiffViolations.lines dv))).
    rewrite (diff_violations_sum self (λ dv, Py.len_set (DiffViolations.measured_lines dv))).
    apply sum_Z_le. intros p Hp. apply (proj1 (elem_of_remove_dups _ _)) in Hp.
    apply len_set_subseteq, (Hsub p). by apply lookup_diff_violations_Some. }
  split; [done|]. intros Hlt.
  destruct (decide (0 < BaseReportGenerator.total_num_lines self)) as [Hpos|Hzero].
  - rewrite total_percent_covered_pos by done.
    apply to_int_at_most_hundred, mul_hundred_at_most, of_int_div_at_most_one.
    + pose proof (total_num_missing_nonneg self). lia.
    + done.
  - exists 100. split; [|lia].
    unfold BaseReportGenerator.total_percent_covered. by rewrite decide_False by lia.
Qed.

(** X14 at two paths whose reporter gives no measured lines. *)
Lemma total_num_missing_le_total_num_lines_witness :
  let self := Examples.generator ["a.py"; "b.py"]%string [2; 9] None [1; 2; 3] in
  BaseReportGenerator.total_num_missing self ≤ BaseReportGenerator.total_num_lines self
  ∧ ∃ r, BaseReportGenerator.total_percent_covered self = Return r ∧ 0 ≤ r ≤ 100.
Proof.
  intros self.
  destruct (total_num_missing_le_total_num_lines self) as [Hle Hrange].
  - intros p dv [_ ->]%lookup_diff_violations_Some. decide_by_computation.
  - split; [exact Hle|]. apply Hrange. by_computation.
Defined.

(** ** Dictionaries built in a loop *)

Section dict_for.
Context {V : Type}.
Implicit Types (f : string → result V) (ks : list string) (d : gmap string V).

Lemma dict_for_loop_Raise f ks e :
  foldl (λ (acc : result (gmap string V)) k, d ← acc; v ← f k; mret (<[k := v]> d))
        (Raise e) ks
  = Raise e.
Proof. induction ks as [|k ks IH]; simpl; [done|]. apply IH. Qed.

Lemma dict_for_loop_Return f ks : ∀ d0,
  (∀ k, k ∈ ks → ∃ v, f k = Return v) →
  ∃ d, foldl (λ (acc : result (gmap string V)) k, d ← acc; v ← f k; mret (<[k := v]> d))
             (Return d0) ks
       = Return d
       ∧ ∀ k, d !! k = if decide (k ∈ ks)
                       then match f k with Return v => Some v | Raise _ => None end
                       else d0 !! k.
Proof.
  induction ks as [|k ks IH]; intros d0 Hall.
  - exists d0. split; [done|]. intros k.
    case_decide as Hk; [by apply elem_of_nil in Hk|done].
  - destruct (Hall k) as [v Hv]; [apply list_elem_of_here|].
    cbn [foldl mbind result_bind]. rewrite Hv. cbn [mbind result_bind mret result_ret].
    destruct (IH (<[k := v]> d0)) as (d & Hd & Hlookup).
    { intros k' Hk'. by apply Hall, list_elem_of_further. }
    exists d. split; [done|]. intros k'. rewrite Hlookup.
    destruct (decide (k' ∈ ks)) as [Hin|Hnin].
    + by rewrite decide_True by (by apply list_elem_of_further).
    + destruct (decide (k = k')) as [<-|Hne].
      * rewrite decide_True by apply list_elem_of_here.
        by rewrite lookup_insert_eq, Hv.
      * rewrite decide_False by (apply not_elem_of_cons; auto).
        by rewrite lookup_insert_ne.
Qed.

Lemma dict_for_Return f ks :
  (∀ k, k ∈ ks → ∃ v, f k = Return v) →
  ∃ d, dict_for f ks = Return d
       ∧ dom d = list_to_set ks
       ∧ ∀ k v, d !! k = Some v ↔ k ∈ ks ∧ f k = Return v.
Proof.
  intros Hall. destruct (dict_for_loop_Return f ks ∅ Hall) as (d & Hd & Hlookup).
  exists d. split; [done|]. split.
  - apply set_eq. intros k. rewrite elem_of_dom, elem_of_list_to_set, Hlookup.
    case_decide as Hin.
    + destruct (Hall k Hin) as [v ->]. split; [done|by eexists].
    + rewrite lookup_empty. split; [by intros []|done].
  - intros k v. rewrite Hlookup. case_decide as Hin.
    + destruct (Hall k Hin) as [v' ->].
      split; [by intros [= ->]|by intros [_ [= ->]]].
    + rewrite lookup_empty. split; [done|by intros []].
Qed.

Lemma dict_for_Raise f ks e k :
  (∀ k, k ∈ ks → f k = Raise e ∨ ∃ v, f k = Return v) →
  k ∈ ks → f k = Raise e → dict_for f ks = Raise e.
Proof.
  unfold dict_for. generalize (∅ : gmap string V).
  induction ks as [|k' ks IH]; intros d0 Hall Hin Hk; simpl.
  - by apply elem_of_nil in Hin.
  - destruct (Hall k') as [Hraise|[v Hv]]; [apply list_elem_of_here| |].
    + rewrite Hraise. simpl. apply dict_for_loop_Raise.
    + rewrite Hv. simpl. apply elem_of_cons in Hin as [->|Hin]; [congruence|].
      apply IH; [|done|done]. intros k'' Hk''. by apply Hall, list_elem_of_further.
Qed.

Lemma all_Return_or_Raise f ks :
  (∀ k, k ∈ ks → ∃ v, f k = Return v) ∨ (∃ k e, k ∈ ks ∧ f k = Raise e).
Proof.
  induction ks as [|k ks [IH|(k' & e & Hin & Hk')]].
  - left. by intros k ?%elem_of_nil.
  - destruct (f k) as [v|e] eqn:Hk.
    + left. intros k' [->|Hin]%elem_of_cons; eauto.
    + right. exists k, e. split; [apply list_elem_of_here|done].
  - right. exists k', e. split; [by apply list_elem_of_further|done].
Qed.

(** The dictionary does not depend on the order of the keys when every
    failure is the same exception. *)
Lemma dict_for_Permutation f ks1 ks2 e :
  (∀ k, k ∈ ks1 → f k = Raise e ∨ ∃ v, f k = Return v) →
  ks1 ≡ₚ ks2 → dict_for f ks1 = dict_for f ks2.
Proof.
  intros Hall Hperm.
  destruct (all_Return_or_Raise f ks1) as [Hret|(k & e' & Hin & Hk)].
  - destruct (dict_for_Return f ks1 Hret) as (d1 & -> & _ & H1).
    destruct (dict_for_Return f ks2) as (d2 & -> & _ & H2).
    { intros k Hk. apply Hret. by rewrite Hperm. }
    f_equal. apply map_eq. intros k. apply option_eq. intros v.
    rewrite H1, H2. by rewrite Hperm.
  - assert (e' = e) as ->.
    { destruct (Hall k Hin) as [?|[v ?]]; congruence. }
    rewrite (dict_for_Raise f ks1 e k), (dict_for_Raise f ks2 e k); try done.
    + intros k' Hk'. apply Hall. by rewrite Hperm.
    + by rewrite <- Hperm.
Qed.
End dict_for.

(** ** _src_path_stats *)

Lemma src_path_stats_Return self src_path :
  src_path ∈ BaseReportGenerator.src_paths self →
  ∃ x, BaseReportGenerator.percent_covered self src_path = Return (Some x)
       ∧ TemplateReportGenerator._src_path_stats self src_path
         = Return {| TemplateReportGenerator.percent_covered := Some x;
                     TemplateReportGenerator.missing_lines :=
                       Py.str <$> BaseReportGenerator.missing_lines self src_path;
                     TemplateReportGenerator.num_missing :=
                       Z.of_nat (length (BaseReportGenerator.missing_lines self src_path)) |}.
Proof.
  intros [Hin Hne]%elem_of_src_paths.
  assert (BaseReportGenerator._diff_violations self !! src_path
          = Some (entry self src_path)) as Hdv.
  { by apply lookup_diff_violations_Some. }
  unfold TemplateReportGenerator._src_path_stats.
  rewrite (percent_covered_entry _ _ _ Hdv). unfold PyFloat.truediv.
  rewrite of_int_nonzero by (by apply len_set_pos). simpl.
  eexists. split; [done|]. by rewrite length_fmap.
Qed.

(** X16.  [_src_path_stats] returns no percentage, no line and the count 0
    for a path without entry; it raises [ZeroDivisionError] for an entry
    without measured line; and for an entry with measured lines it returns
    the float of [percent_covered], the missing lines of [missing_lines]
    written in decimal, which are pairwise distinct strings, and their
    number, which is the number of violation lines of the entry. *)
Theorem src_path_stats_value self src_path :
  (BaseReportGenerator._diff_violations self !! src_path = None →
   TemplateReportGenerator._src_path_stats self src_path
   = Return {| TemplateReportGenerator.percent_covered := None;
               TemplateReportGenerator.missing_lines := [];
               TemplateReportGenerator.num_missing := 0 |})
  ∧ (∀ dv, BaseReportGenerator._diff_violations self !! src_path = Some dv →
           DiffViolations.measured_lines dv = ∅ →
           TemplateReportGenerator._src_path_stats self src_path = Raise ZeroDivisionError)
  ∧ (∀ dv, BaseReportGenerator._diff_violations self !! src_path = Some dv →
           DiffViolations.measured_lines dv ≠ ∅ →
           ∃ stats x,
             TemplateReportGenerator._src_path_stats self src_path = Return stats
             ∧ TemplateReportGenerator.percent_covered stats = Some x
             ∧ BaseReportGenerator.percent_covered self src_path = Return (Some x)
             ∧ TemplateReportGenerator.missing_lines stats
               = Py.str <$> BaseReportGenerator.missing_lines self src_path
             ∧ NoDup (TemplateReportGenerator.missing_lines stats)
             ∧ TemplateReportGenerator.num_missing stats
               = Py.len_set (DiffViolations.lines dv)).
Proof.
  split; [|split].
  - intros Hnone. unfold TemplateReportGenerator._src_path_stats,
      BaseReportGenerator.percent_covered, BaseReportGenerator.missing_lines.
    by rewrite Hnone.
  - intros dv Hdv Hempty. unfold TemplateReportGenerator._src_path_stats.
    rewrite (percent_covered_entry _ _ _ Hdv), Hempty. done.
  - intros dv Hdv Hne.
    pose proof Hdv as [Hin ->]%lookup_diff_violations_Some.
    destruct (src_path_stats_Return self src_path) as (x & Hx & ->).
    { by apply elem_of_src_paths. }
    eexists _, x. split; [done|]. simpl. split; [done|]. split; [done|].
    split; [done|]. split.
    + apply NoDup_fmap_2; [apply pretty_Z_inj|].
      unfold BaseReportGenerator.missing_lines. rewrite Hdv. unfold Py.sorted.
      rewrite merge_sort_Permutation. apply NoDup_elements.
    + by apply length_missing_lines.
Qed.

(** ** _context *)

(** [classify] fails with [IOError] or returns. *)
Lemma classify_Return_or_IOError fs self :
  match fs !! Hunker.src_path self with
  | None => Hunker.classify fs self = Raise IOError
  | Some _ => ∃ hunks, Hunker.classify fs self = Return hunks
  end.
Proof.
  destruct (fs !! Hunker.src_path self) as [content|] eqn:Hfs.
  - destruct (code_and_context_Return fs self content Hfs) as (windows & Hw & _).
    rewrite classify_fmap, Hw. by eexists.
  - unfold Hunker.classify, Hunker.code_and_context, Hunker.readlines. by rewrite Hfs.
Qed.

Lemma total_percent_covered_Raise self e :
  BaseReportGenerator.total_percent_covered self = Raise e →
  e = OverflowError ∨ e = ValueError.
Proof.
  destruct (decide (0 < BaseReportGenerator.total_num_lines self)) as [Hpos|Hzero].
  - rewrite total_percent_covered_pos by done.
    destruct (PyFloat.mul _ _); simpl; intros [=]; auto.
  - unfold BaseReportGenerator.total_percent_covered. by rewrite decide_False by lia.
Qed.

Lemma context_in_Raise fs self paths p :
  (∀ q, q ∈ paths → q ∈ BaseReportGenerator.src_paths self) →
  p ∈ paths → fs !! p = None →
  TemplateReportGenerator._context_in paths fs self = Raise IOError.
Proof.
  intros Hpaths Hp Hfs. unfold TemplateReportGenerator._context_in.
  destruct (dict_for_Return (TemplateReportGenerator._src_path_stats self) paths)
    as (stats & -> & _).
  { intros q Hq. destruct (src_path_stats_Return self q) as (x & _ & ->); [auto|].
    by eexists. }
  cbn [mbind result_bind].
  rewrite (dict_for_Raise _ paths IOError p); [done| |done|].
  - intros q _. pose proof (classify_Return_or_IOError fs (hunker_for self q)) as Hq.
    fold (hunker_for self q). destruct (fs !! Hunker.src_path (hunker_for self q)); auto.
  - pose proof (classify_Return_or_IOError fs (hunker_for self p)) as Hq.
    simpl in Hq. by rewrite Hfs in Hq.
Qed.

Lemma context_in_Return fs self paths :
  (∀ q, q ∈ paths → q ∈ BaseReportGenerator.src_paths self) →
  (∀ q, q ∈ paths → is_Some (fs !! q)) →
  ∃ stats augmented,
    TemplateReportGenerator._context_in paths fs self
    = (total ← BaseReportGenerator.total_percent_covered self;
       Return {| TemplateReportGenerator.report_name :=
                   ViolationReporter.name (BaseReportGenerator._violations self);
                 TemplateReportGenerator.diff_name :=
                   DiffReporter.name (BaseReportGenerator._diff self);
                 TemplateReportGenerator.src_stats := stats;
                 TemplateReportGenerator.augmented_stats := augmented;
                 TemplateReportGenerator.total_num_lines :=
                   BaseReportGenerator.total_num_lines self;
                 TemplateReportGenerator.total_num_missing :=
                   BaseReportGenerator.total_num_missing self;
                 TemplateReportGenerator.total_percent_covered := total |})
    ∧ dom stats = list_to_set paths
    ∧ dom augmented = list_to_set paths
    ∧ (∀ p s, stats !! p = Some s
              ↔ p ∈ paths ∧ TemplateReportGenerator._src_path_stats self p = Return s)
    ∧ (∀ p h, augmented !! p = Some h
              ↔ p ∈ paths ∧ Hunker.classify fs (hunker_for self p) = Return h).
Proof.
  intros Hpaths Hfs. unfold TemplateReportGenerator._context_in.
  destruct (dict_for_Return (TemplateReportGenerator._src_path_stats self) paths)
    as (stats & -> & Hdom_stats & Hstats).
  { intros q Hq. destruct (src_path_stats_Return self q) as (x & _ & ->); [auto|].
    by eexists. }
  destruct (dict_for_Return (λ src, Hunker.classify fs (hunker_for self src)) paths)
    as (augmented & Haug & Hdom_aug & Haugmented).
  { intros q Hq. pose proof (classify_Return_or_IOError fs (hunker_for self q)) as Hc.
    simpl in Hc. destruct (Hfs q Hq) as [content Hcontent]. by rewrite Hcontent in Hc. }
  exists stats, augmented. cbn [mbind result_bind]. cbv zeta.
  unfold hunker_for in Haug. rewrite Haug. done.
Qed.
(** X17.  When the file of every path of [src_paths] can be read, [_context]
    fails only where [total_percent_covered] does, and otherwise returns the
    names of the two reporters, the two totals, the total percentage and
    two dictionaries whose keys are the paths of [src_paths]: [src_stats]
    maps a path to the result of [_src_path_stats], whose percentage is a
    float and never [None], and [augmented_stats] maps it to the result of
    [classify] for the missing lines of the path. *)
Theorem context_value fs self :
  (∀ p, p ∈ BaseReportGenerator.src_paths self → is_Some (fs !! p)) →
  ∃ stats augmented,
    TemplateReportGenerator._context fs self
    = (total ← BaseReportGenerator.total_percent_covered self;
       Return {| TemplateReportGenerator.report_name :=
                   ViolationReporter.name (BaseReportGenerator._violations self);
                 TemplateReportGenerator.diff_name :=
                   DiffReporter.name (BaseReportGenerator._diff self);
                 TemplateReportGenerator.src_stats := stats;
                 TemplateReportGenerator.augmented_stats := augmented;
                 TemplateReportGenerator.total_num_lines :=
                   BaseReportGenerator.total_num_lines self;
                 TemplateReportGenerator.total_num_missing :=
                   BaseReportGenerator.total_num_missing self;
                 TemplateReportGenerator.total_percent_covered := total |})
    ∧ dom stats = BaseReportGenerator.src_paths self
    ∧ dom augmented = BaseReportGenerator.src_paths self
    ∧ (∀ p s, stats !! p = Some s →
         TemplateReportGenerator._src_path_stats self p = Return s
         ∧ is_Some (TemplateReportGenerator.percent_covered s))
    ∧ (∀ p h, augmented !! p = Some h →
         Hunker.classify fs
           (Hunker.init p (BaseReportGenerator.missing_lines self p)
              (BaseReportGenerator._diff self))
         = Return h).
Proof.
  intros Hfs.
  destruct (context_in_Return fs self (elements (BaseReportGenerator.src_paths self)))
    as (stats & augmented & Hctx & Hdom_stats & Hdom_aug & Hstats & Haug).
  { by intros q ?%elem_of_elements. }
  { intros q ?%elem_of_elements. auto. }
  exists stats, augmented. split; [exact Hctx|].
  rewrite Hdom_stats, Hdom_aug, list_to_set_elements_L.
  split; [done|]. split; [done|]. split.
  - intros p s [Hp Hs]%Hstats. split; [done|].
    apply elem_of_elements in Hp.
    destruct (src_path_stats_Return self p Hp) as (x & _ & Hx).
    rewrite Hx in Hs. injection Hs as <-. by eexists.
  - by intros p h [_ Hh]%Haug.
Qed.

(** X18.  [_context] raises [IOError] when the file of a path of
    [src_paths] cannot be read, and it never raises [ZeroDivisionError] or
    [IndexError]: it asks [_src_path_stats] only for paths with measured
    lines. *)
Theorem context_errors fs self :
  (∀ p, p ∈ BaseReportGenerator.src_paths self → fs !! p = None →
        TemplateReportGenerator._context fs self = Raise IOError)
  ∧ TemplateReportGenerator._context fs self ≠ Raise ZeroDivisionError
  ∧ TemplateReportGenerator._context fs self ≠ Raise IndexError.
Proof.
  assert (Hio : ∀ p, p ∈ BaseReportGenerator.src_paths self → fs !! p = None →
                     TemplateReportGenerator._context fs self = Raise IOError).
  { intros p Hp Hnone.
    apply (context_in_Raise fs self _ p); [|by apply elem_of_elements|done].
    by intros q ?%elem_of_elements. }
  split; [exact Hio|].
  destruct (all_Return_or_Raise (λ p, match fs !! p with
                                      | Some c => Return c
                                      | None => Raise IOError
                                      end)
              (elements (BaseReportGenerator.src_paths self)))
    as [Hall|(p & e & Hp%elem_of_elements & Hnone)].
  - destruct (context_in_Return fs self (elements (BaseReportGenerator.src_paths self)))
      as (stats & augmented & Hctx & _).
    { by intros q ?%elem_of_elements. }
    { intros q Hq. destruct (Hall q Hq) as [c Hc]. by destruct (fs !! q). }
    unfold TemplateReportGenerator._context. rewrite Hctx.
    destruct (BaseReportGenerator.total_percent_covered self) as [total|e] eqn:Htotal;
      [done|].
    apply total_percent_covered_Raise in Htotal as [-> | ->]; done.
  - rewrite (Hio p Hp); [done|]. by destruct (fs !! p).
Qed.

(** X17 at two paths with the missing lines 4 and 20. *)
Lemma context_value_witness :
  let self := Examples.generator ["a.py"; "b.py"]%string [4; 20] None [3; 4; 20] in
  let fs : gmap string (list string) :=
    {[ "a.py"%string := ["a"; "b"; "c"; "d"; "e"; "f"; "g"; "h"]%string;
       "b.py"%string := ["i"; "j"; "k"; "l"; "m"; "n"; "o"; "p"]%string ]} in
  ∃ stats augmented,
    TemplateReportGenerator._context fs self
    = (total ← BaseReportGenerator.total_percent_covered self;
       Return {| TemplateReportGenerator.report_name :=
                   ViolationReporter.name (BaseReportGenerator._violations self);
                 TemplateReportGenerator.diff_name :=
                   DiffReporter.name (BaseReportGenerator._diff self);
                 TemplateReportGenerator.src_stats := stats;
                 TemplateReportGenerator.augmented_stats := augmented;
                 TemplateReportGenerator.total_num_lines :=
                   BaseReportGenerator.total_num_lines self;
                 TemplateReportGenerator.total_num_missing :=
                   BaseReportGenerator.total_num_missing self;
                 TemplateReportGenerator.total_percent_covered := total |})
    ∧ dom stats = BaseReportGenerator.src_paths self
    ∧ dom augmented = BaseReportGenerator.src_paths self
    ∧ (∀ p s, stats !! p = Some s →
         TemplateReportGenerator._src_path_stats self p = Return s
         ∧ is_Some (TemplateReportGenerator.percent_covered s))
    ∧ (∀ p h, augmented !! p = Some h →
         Hunker.classify fs
           (Hunker.init p (BaseReportGenerator.missing_lines self p)
              (BaseReportGenerator._diff self))
         = Return h).
Proof.
  intros self fs. apply (context_value fs self).
  intros p Hp%elem_of_src_paths. destruct Hp as [Hp _].
  apply elem_of_cons in Hp as [->|Hp]; [by eexists|].
  apply elem_of_cons in Hp as [->|Hp]; [by eexists|].
  by apply elem_of_nil in Hp.
Defined.

(** X19.  Whether [_context] returns, and the context it returns, do not
    depend on the order in which the set [src_paths] is iterated; and it
    fails in one order exactly when it fails in every order.  Which file
    the exception names is not part of the statement. *)
Theorem context_order_independent fs self paths :
  paths ≡ₚ elements (BaseReportGenerator.src_paths self) →
  (∀ ctx, TemplateReportGenerator._context_in paths fs self = Return ctx
          ↔ TemplateReportGenerator._context fs self = Return ctx)
  ∧ ((∃ e, TemplateReportGenerator._context_in paths fs self = Raise e)
     ↔ (∃ e, TemplateReportGenerator._context fs self = Raise e)).
Proof.
  intros Hperm.
  assert (TemplateReportGenerator._context_in paths fs self
          = TemplateReportGenerator._context fs self) as ->; [|done].
  unfold TemplateReportGenerator._context, TemplateReportGenerator._context_in.
  rewrite (dict_for_Permutation (TemplateReportGenerator._src_path_stats self) paths
             (elements (BaseReportGenerator.src_paths self)) ZeroDivisionError);
    [|..|done].
  2:{ intros p Hp. rewrite Hperm in Hp. apply elem_of_elements in Hp.
      destruct (src_path_stats_Return self p Hp) as (x & _ & ->). right. by eexists. }
  destruct (dict_for (TemplateReportGenerator._src_path_stats self) (elements _))
    as [stats|e]; [|done].
  cbn [mbind result_bind].
  rewrite (dict_for_Permutation _ paths (elements (BaseReportGenerator.src_paths self))
             IOError); [done| |done].
  intros p _.
  pose proof (classify_Return_or_IOError fs
                (Hunker.init p (BaseReportGenerator.missing_lines self p)
                   (BaseReportGenerator._diff self))) as Hc.
  cbv zeta. destruct (fs !! Hunker.src_path _); auto.
Qed.

(** X19 at the reverse order of two paths whose files can be read. *)
Lemma context_order_independent_witness :
  let self := Examples.generator ["a.py"; "b.py"]%string [4; 20] None [3; 4; 20] in
  let fs : gmap string (list string) :=
    {[ "a.py"%string := ["a"; "b"; "c"; "d"; "e"; "f"; "g"; "h"]%string;
       "b.py"%string := ["i"; "j"; "k"; "l"; "m"; "n"; "o"; "p"]%string ]} in
  let paths := reverse (elements (BaseReportGenerator.src_paths self)) in
  (∀ ctx, TemplateReportGenerator._context_in paths fs self = Return ctx
          ↔ TemplateReportGenerator._context fs self = Return ctx)
  ∧ ((∃ e, TemplateReportGenerator._context_in paths fs self = Raise e)
     ↔ (∃ e, TemplateReportGenerator._context fs self = Raise e)).
Proof.
  intros self fs paths. apply context_order_independent. apply reverse_Permutation.
Defined.
